(** * Degree-Planner scrapers: heading-driven segmentation, verified

    A shallow embedding of the scraping core of
    [src/data/Scraper/ai_parse_requirements.py],
    [src/data/Scraper/scrape_requirements_raw.py] and
    [src/data/Scraper/ubc_prereq_scraper.py].

    Python [str] values are modelled as lists of characters whose code
    points lie in 0..255 (Rocq's [ascii]); on that range the character
    classes below are exactly those of CPython ([str.isspace], the [\s] and
    [\d] classes of [re] on [str] patterns, [str.lower]). *)

From stdpp Require Import base gmap sets list strings.
From Stdlib Require Import Ascii.

Local Open Scope list_scope.

(** ** Python strings *)

Module PyStr.

Definition str := list ascii.

(** A string literal. *)
Definition py (s : string) : str := String.list_ascii_of_string s.

Definition in_range (lo hi : nat) (c : ascii) : bool :=
  let n := nat_of_ascii c in (lo <=? n)%nat && (n <=? hi)%nat.

(** [str.isspace] on one character, which is also [\s] of [re] and the set
    removed by [str.strip()]: TAB..CR, FS..US, SPACE, NEL and NBSP. *)
Definition isspace (c : ascii) : bool :=
  in_range 9 13 c || in_range 28 32 c
  || (nat_of_ascii c =? 133)%nat || (nat_of_ascii c =? 160)%nat.

(** [\d] of [re]: the decimal digits. *)
Definition isdigit (c : ascii) : bool := in_range 48 57 c.

(** The class [A-Z]. *)
Definition isAZ (c : ascii) : bool := in_range 65 90 c.

Definition space : ascii := " "%char.
Definition newline : ascii := ascii_of_nat 10.

(** [str.lower] on one character: A-Z and the upper-case letters of the
    Latin-1 block (all of 192..222 but the multiplication sign 215). *)
Definition lower_char (c : ascii) : ascii :=
  if isAZ c || (in_range 192 222 c && negb (nat_of_ascii c =? 215)%nat)
  then ascii_of_nat (nat_of_ascii c + 32)
  else c.

Definition lower (s : str) : str := map lower_char s.

(** [s.lstrip()]. *)
Fixpoint lstrip (s : str) : str :=
  match s with
  | [] => []
  | c :: s' => if isspace c then lstrip s' else s
  end.

(** [s.rstrip()]: a character is dropped when it is white space and
    nothing survives to its right. *)
Fixpoint rstrip (s : str) : str :=
  match s with
  | [] => []
  | c :: s' =>
      match rstrip s' with
      | [] => if isspace c then [] else [c]
      | r => c :: r
      end
  end.

(** [s.strip()]. *)
Definition strip (s : str) : str := rstrip (lstrip s).

(** [re.sub(r"\s+", " ", s)]: every maximal run of white space becomes one
    space.  [in_run] records that the previous character was white space. *)
Fixpoint sub_ws (in_run : bool) (s : str) : str :=
  match s with
  | [] => []
  | c :: s' =>
      if isspace c
      then (if in_run then sub_ws true s' else space :: sub_ws true s')
      else c :: sub_ws false s'
  end.

Definition re_sub_ws (s : str) : str := sub_ws false s.

(** Truthiness of a string: non-empty. *)
Definition truthy (s : str) : bool :=
  match s with [] => false | _ => true end.

(** Truthiness of a list. *)
Definition truthy_list {A : Type} (l : list A) : bool :=
  match l with [] => false | _ => true end.

(** [prefix.startswith]: [startswith p s] is [s.startswith(p)]. *)
Fixpoint startswith (p s : str) : bool :=
  match p, s with
  | [], _ => true
  | _ :: _, [] => false
  | a :: p', b :: s' => bool_decide (a = b) && startswith p' s'
  end.

(** [needle in hay]. *)
Fixpoint contains (needle hay : str) : bool :=
  startswith needle hay ||
  match hay with
  | [] => false
  | _ :: hay' => contains needle hay'
  end.

(** [sep.join(parts)]. *)
Fixpoint join (sep : str) (parts : list str) : str :=
  match parts with
  | [] => []
  | [p] => p
  | p :: rest => p ++ sep ++ join sep rest
  end.

(** [s.split()]: the maximal runs of characters that are not white space.
    [cur] is the word being read, reversed. *)
Fixpoint split_ws_aux (cur : str) (s : str) : list str :=
  match s with
  | [] => match cur with [] => [] | _ => [rev cur] end
  | c :: s' =>
      if isspace c
      then match cur with
           | [] => split_ws_aux [] s'
           | _ => rev cur :: split_ws_aux [] s'
           end
      else split_ws_aux (c :: cur) s'
  end.

Definition split_ws (s : str) : list str := split_ws_aux [] s.

End PyStr.

Import PyStr.

(** ** [ai_parse_requirements.py]: the text normalizer *)

(** [normalize_text]: [re.sub(r"\s+", " ", s).strip().lower()]. *)
Definition normalize_text (s : str) : str := lower (strip (re_sub_ws s)).

(** White space occurs only as single spaces; [prev] says that the character
    to the left is white space. *)
Fixpoint single_spaced (prev : bool) (s : str) : bool :=
  match s with
  | [] => true
  | c :: s' =>
      if isspace c
      then bool_decide (c = space) && negb prev && single_spaced true s'
      else single_spaced false s'
  end.

Definition starts_ws (s : str) : bool :=
  match s with [] => false | c :: _ => isspace c end.

(** ** The parsed document (BeautifulSoup)

    A page element is a text node or a tag with its ordered contents; the
    document object is itself a tag.  Tag names are as the parser gives them
    (lower case). *)

#[warnings="-register-all"]
Inductive Node : Type :=
| NavigableString (s : str)
| Tag (name : str) (contents : list Node).

(** A node together with the rest of its parent's contents: what the chain
    of [next_sibling] reaches from it. *)
Record Located : Type := Loc { node : Node; next_siblings : list Node }.

Definition is_tag (n : Node) : bool :=
  match n with Tag _ _ => true | NavigableString _ => false end.

(** [isinstance(n, Tag) and n.name in names]. *)
Definition name_in (names : list str) (n : Node) : bool :=
  match n with
  | Tag name _ => bool_decide (name ∈ names)
  | NavigableString _ => false
  end.

(** Truthiness of a page element in [while node:]: a tag is always true, a
    text node is a [str] and is true when it is not empty (the end of the
    sibling chain, [None], is the end of the list). *)
Definition node_truthy (n : Node) : bool :=
  match n with
  | Tag _ _ => true
  | NavigableString s => truthy s
  end.

(** The text nodes below a node, in document order. *)
Fixpoint all_strings (n : Node) : list str :=
  match n with
  | NavigableString s => [s]
  | Tag _ cs =>
      (fix go (l : list Node) : list str :=
         match l with
         | [] => []
         | c :: rest => all_strings c ++ go rest
         end) cs
  end.

(** [n.get_text(" ", strip=True)]: the stripped, non-empty text pieces
    joined by one space. *)
Definition get_text (n : Node) : str :=
  join [space] (filter (λ t, truthy t = true) (map strip (all_strings n))).

(** All elements strictly below a node, in document order, each with its
    following siblings. *)
Fixpoint descendants (n : Node) : list Located :=
  match n with
  | NavigableString _ => []
  | Tag _ cs =>
      (fix go (l : list Node) : list Located :=
         match l with
         | [] => []
         | c :: rest => Loc c rest :: descendants c ++ go rest
         end) cs
  end.

(** [n.find_all(names)]. *)
Definition find_all (names : list str) (n : Node) : list Located :=
  filter (λ l, name_in names (node l) = true) (descendants n).

(** [n.find(name)]: the first match of [find_all], or [None]. *)
Definition find (name : str) (n : Node) : option Located :=
  head (find_all [name] n).

(** [n.find_all(name, recursive=False)]: among the direct children only. *)
Definition find_all_children (names : list str) (n : Node) : list Node :=
  match n with
  | NavigableString _ => []
  | Tag _ cs => filter (λ c, name_in names c = true) cs
  end.

Definition h2 : str := py "h2".
Definition h3 : str := py "h3".
Definition h4 : str := py "h4".

(** ** Walking a chain of siblings

    Every walk of the scrapers has the shape

      [node = start; while node: ...body...; node = node.next_sibling]

    where each path through the body either breaks out of the loop or moves
    to the next sibling.  A body is a function of the position of the node in
    the chain (its identity), the node and the accumulated state, returning
    [None] for [break]. *)

Section Walk.
Context {A : Type}.
Variable body : nat → Node → A → option A.

(** The loop, by recursion on the siblings still ahead. *)
Fixpoint loop (i : nat) (siblings : list Node) (a : A) : A :=
  match siblings with
  | [] => a
  | n :: rest =>
      if negb (node_truthy n) then a
      else match body i n a with
           | None => a
           | Some a' => loop (S i) rest a'
           end
  end.

(** The same loop as a machine with an explicit cursor: [pos] is the
    index of [node] in the chain, past the end when [node] is [None]. *)
Record Cursor : Type := { pos : nat; acc : A }.

Definition step (siblings : list Node) (c : Cursor) : Cursor + A :=
  match siblings !! pos c with
  | None => inr (acc c)
  | Some n =>
      if negb (node_truthy n) then inr (acc c)
      else match body (pos c) n (acc c) with
           | None => inr (acc c)
           | Some a' => inl {| pos := S (pos c); acc := a' |}
           end
  end.

(** [run fuel] makes at most [fuel] rounds; [None] when the loop is still
    running after that.  The second component is the trace of the walk:
    the positions of the cursor at which the loop test was made. *)
Fixpoint run (fuel : nat) (siblings : list Node) (c : Cursor) : option (A * list nat) :=
  match fuel with
  | O => None
  | S fuel' =>
      match step siblings c with
      | inr a => Some (a, [pos c])
      | inl c' =>
          match run fuel' siblings c' with
          | Some (a, trace) => Some (a, pos c :: trace)
          | None => None
          end
      end
  end.
End Walk.

(** ** [ai_parse_requirements.py]: heading matcher and block segmenter *)

(** One round of the loop of [find_specialization_heading]; [best] carries
    [best] and [best_score] together ([None] for both). *)
Definition heading_round (target : str) (best : option (Located * Z)) (tag : Located)
  : option (Located * Z) :=
  let text := normalize_text (get_text (node tag)) in
  if negb (truthy text) then best
  else if bool_decide (target = text) || contains target text || contains text target
  then
    let score := Z.abs (Z.of_nat (length text) - Z.of_nat (length target)) in
    match best with
    | None => Some (tag, score)
    | Some (_, best_score) =>
        if (score <? best_score)%Z then Some (tag, score) else best
    end
  else best.

(** The loop over the headings of the page. *)
Definition best_heading (target : str) (tags : list Located) : option Located :=
  fst <$> foldl (heading_round target) None tags.

Definition find_specialization_heading (soup : Node) (specialization_name : str)
  : option Located :=
  best_heading (normalize_text specialization_name) (find_all [h2; h3; h4] soup).

Definition is_block_terminator (tag : Node) : bool :=
  match tag with
  | NavigableString _ => false
  | Tag _ _ => name_in [h2; h3; h4] tag
  end.

(** The line of one table row: its non-empty cell texts joined by [" | "]. *)
Definition row_text (tr : Node) : str :=
  let cells := map (λ c, get_text (node c)) (find_all [py "td"; py "th"] tr) in
  join (py " | ") (filter (λ c, truthy c = true) cells).

(** What one tag that is not a terminator appends to [lines]: the three
    [if] blocks of the loop body, in order. *)
Definition paragraph_lines (n : Node) : list str :=
  if name_in [py "p"; py "div"] n
  then (let text := get_text n in if truthy text then [text] else [])
  else [].

Definition list_lines (n : Node) : list str :=
  if name_in [py "ul"; py "ol"] n
  then filter (λ t, truthy t = true) (map get_text (find_all_children [py "li"] n))
  else [].

Definition table_lines (n : Node) : list str :=
  if name_in [py "table"] n
  then filter (λ t, truthy t = true) (map (λ tr, row_text (node tr)) (find_all [py "tr"] n))
  else [].

Definition node_lines (n : Node) : list str :=
  paragraph_lines n ++ list_lines n ++ table_lines n.

(** The body of the [while node:] loop of
    [extract_requirement_lines_from_block]; the accumulator is [lines]. *)
Definition block_body (_ : nat) (n : Node) (lines : list str) : option (list str) :=
  if negb (is_tag n) then Some lines
  else if is_block_terminator n then None
  else Some (lines ++ node_lines n).

Definition collect_lines (siblings : list Node) : list str :=
  loop block_body 0 siblings [].

(** The clean-up loop: [seen] is the set, [cleaned] the list built so far. *)
Fixpoint clean_loop (lines : list str) (seen : gset str) (cleaned : list str) : list str :=
  match lines with
  | [] => cleaned
  | ln :: rest =>
      let ln_stripped := strip ln in
      if (length ln_stripped <? 3)%nat then clean_loop rest seen cleaned
      else if bool_decide (ln_stripped ∈ seen) then clean_loop rest seen cleaned
      else clean_loop rest ({[ln_stripped]} ∪ seen) (cleaned ++ [ln_stripped])
  end.

Definition clean_lines (lines : list str) : list str := clean_loop lines ∅ [].

Definition extract_requirement_lines_from_block (start_heading : Located) : list str :=
  clean_lines (collect_lines (next_siblings start_heading)).

(** ** Exceptions

    A call either returns a value or raises. *)

Inductive Exn : Type :=
| IndexError | KeyError | TypeError | AttributeError | RuntimeError
| RequestError | JSONDecodeError.

Inductive result (A : Type) : Type :=
| Ok (a : A)
| Raise (e : Exn).
Arguments Ok {A} a.
Arguments Raise {A} e.

#[global] Instance result_ret : MRet result := λ A a, Ok a.
#[global] Instance result_bind : MBind result := λ A B k r,
  match r with
  | Ok a => k a
  | Raise e => Raise e
  end.

(** ** [scrape_requirements_raw.py]: section classifier and year-grouped walks *)

(** [any(text.startswith(p) for p in prefixes)] on the stripped text. *)
Definition is_specialization_heading (text : str) : bool :=
  let text := strip text in
  let prefixes :=
    [ py "Major"; py "Honours"; py "Combined Major"; py "Combined Honours";
      py "Minor"; py "Specialization"; py "Specializations";
      py "Major Programs"; py "Honours Programs" ] in
  existsb (λ p, startswith p text) prefixes.

(** [re.match] of a pattern [^lit$] whose body has no special character:
    without [re.MULTILINE] the [$] matches at the end of the text and also
    just before a newline that ends it. *)
Definition re_match_anchored (lit text : str) : bool :=
  bool_decide (text = lit) || bool_decide (text = lit ++ [newline]).

Definition year_patterns : list str :=
  [ py "First Year"; py "Second Year"; py "Third Year"; py "Fourth Year";
    py "Third and Fourth Years"; py "Years 2 and 3"; py "Fourth and Fifth Years";
    py "First-Year Curriculum"; py "First Year Curriculum";
    py "Second Year Program"; py "Third Year Program"; py "Fourth Year Program" ].

Definition is_year_heading (text : str) : bool :=
  let text := strip text in
  existsb (λ p, re_match_anchored p text) year_patterns.

(** [s.strip("/")]. *)
Fixpoint lstrip_char (ch : ascii) (s : str) : str :=
  match s with
  | [] => []
  | c :: s' => if bool_decide (c = ch) then lstrip_char ch s' else s
  end.

Definition strip_char (ch : ascii) (s : str) : str :=
  rev (lstrip_char ch (rev (lstrip_char ch s))).

(** [s.split("/")]: the pieces between the separators, empty ones kept.
    [cur] is the piece being read, reversed. *)
Fixpoint split_char_aux (ch : ascii) (cur : str) (s : str) : list str :=
  match s with
  | [] => [rev cur]
  | c :: s' =>
      if bool_decide (c = ch) then rev cur :: split_char_aux ch [] s'
      else split_char_aux ch (c :: cur) s'
  end.

Definition split_char (ch : ascii) (s : str) : list str := split_char_aux ch [] s.

(** [parts.index(marker)] followed by [parts[idx + 1]], with the empty
    string when the marker is absent or last. *)
Fixpoint segment_after (marker : str) (parts : list str) : str :=
  match parts with
  | [] => []
  | p :: rest =>
      if bool_decide (p = marker)
      then match rest with q :: _ => q | [] => [] end
      else segment_after marker rest
  end.

Record YearBlock : Type := { year_label : str; raw_lines : list str }.

Record SectionRecord : Type := {
  program_url : str;
  faculty : str;
  specialization_name : str;
  years_raw : list YearBlock
}.

(** The three local variables of the year-grouped walks. *)
Record WalkState : Type := {
  years : list YearBlock;
  current_year : option str;
  current_entries : list str
}.

Definition walk_start : WalkState :=
  {| years := []; current_year := None; current_entries := [] |}.

(** [if current_year is not None and current_entries: years.append(...)],
    giving the new [years]; used inside the loop and after it. *)
Definition flushed (st : WalkState) : list YearBlock :=
  match current_year st with
  | Some y =>
      if truthy_list (current_entries st)
      then years st ++ [{| year_label := y; raw_lines := current_entries st |}]
      else years st
  | None => years st
  end.

(** The branch taken at a year heading. *)
Definition open_year (text : str) (st : WalkState) : WalkState :=
  {| years := flushed st;
     current_year := Some text;
     current_entries :=
       match current_year st with
       | Some _ => if truthy_list (current_entries st) then [] else current_entries st
       | None => current_entries st
       end |}.

(** The branch that collects requirement-ish text. *)
Definition collect_entry (n : Node) (text : str) (st : WalkState) : WalkState :=
  match current_year st with
  | Some _ =>
      if name_in [py "p"; py "div"; py "li"] n
      then (let line := strip text in
            if truthy line
            then {| years := years st; current_year := current_year st;
                    current_entries := current_entries st ++ [line] |}
            else st)
      else st
  | None => st
  end.

(** The part of the loop body that both walks share, for a tag. *)
Definition year_step (n : Node) (st : WalkState) : WalkState :=
  let text := get_text n in
  if is_year_heading text then open_year text st
  else collect_entry n text st.

(** The loop body of [extract_specializations_with_headings]. *)
Definition section_body (_ : nat) (n : Node) (st : WalkState) : option WalkState :=
  if name_in [h3; h4] n && is_specialization_heading (get_text n) then None
  else if negb (is_tag n) then Some st
  else Some (year_step n st).

(** The walk of one specialization: [years] after the final flush. *)
Definition section_years (siblings : list Node) : list YearBlock :=
  flushed (loop section_body 0 siblings walk_start).

(** The loop body of [extract_single_specialization_fallback]; the identity
    [id(node)] of a sibling is its position in the chain. *)
Record PageState : Type := { visited : gset nat; page : WalkState }.

Definition fallback_body (i : nat) (n : Node) (st : PageState) : option PageState :=
  if bool_decide (i ∈ visited st) then None
  else
    let visited' := {[i]} ∪ visited st in
    if negb (is_tag n) then Some {| visited := visited'; page := page st |}
    else Some {| visited := visited'; page := year_step n (page st) |}.

(** The same body without the loop-safety set. *)
Definition plain_body (_ : nat) (n : Node) (st : WalkState) : option WalkState :=
  if negb (is_tag n) then Some st else Some (year_step n st).

Definition fallback_years (siblings : list Node) : list YearBlock :=
  flushed (page (loop fallback_body 0 siblings {| visited := ∅; page := walk_start |})).

(** [tag.string]: the only child when it is a text node, looked for through
    chains of only children. *)
Fixpoint tag_string (n : Node) : option str :=
  match n with
  | NavigableString s => Some s
  | Tag _ [c] => tag_string c
  | Tag _ _ => None
  end.

Definition contents (n : Node) : list Node :=
  match n with
  | NavigableString _ => []
  | Tag _ cs => cs
  end.

Section Extract.
(** [urlparse(url).path] of the standard library. *)
Variable urlparse_path : str → str.

Definition get_faculty_from_url (url : str) : str :=
  let parts := split_char "/" (strip_char "/" (urlparse_path url)) in
  segment_after (py "faculties-colleges-and-schools") parts.

Definition extract_specializations_with_headings (soup : Node) (url : str)
  : list SectionRecord :=
  let faculty := get_faculty_from_url url in
  let spec_headers :=
    filter (λ tag, is_specialization_heading (get_text (node tag)) = true)
           (find_all [h3; h4] soup) in
  map (λ spec_header,
         {| program_url := url;
            faculty := faculty;
            specialization_name := get_text (node spec_header);
            years_raw := section_years (next_siblings spec_header) |})
      spec_headers.

(** The name given to the whole page. *)
Definition fallback_name (soup : Node) : str :=
  match find (py "h1") soup with
  | Some h1 => get_text (node h1)
  | None =>
      match find (py "title") soup with
      | Some title =>
          match tag_string (node title) with
          | Some s => if truthy s then strip s else py "Program"
          | None => py "Program"
          end
      | None => py "Program"
      end
  end.

(** [h1.next_sibling if h1 else soup.body and soup.body.contents[0]], as
    the chain that starts at that node; indexing an empty list raises. *)
Definition fallback_start (soup : Node) : result (list Node) :=
  match find (py "h1") soup with
  | Some h1 => Ok (next_siblings h1)
  | None =>
      match find (py "body") soup with
      | None => Ok []
      | Some body =>
          match contents (node body) with
          | [] => Raise IndexError
          | c :: rest => Ok (c :: rest)
          end
      end
  end.

Definition extract_single_specialization_fallback (soup : Node) (url : str)
  : result (list SectionRecord) :=
  let faculty := get_faculty_from_url url in
  let spec_name := fallback_name soup in
  siblings ← fallback_start soup;
  Ok [ {| program_url := url;
          faculty := faculty;
          specialization_name := spec_name;
          years_raw := fallback_years siblings |} ].

(** [extract_specializations_raw] once the page is fetched and parsed. *)
Definition extract_specializations_raw (soup : Node) (url : str)
  : result (list SectionRecord) :=
  let specs := extract_specializations_with_headings soup url in
  if truthy_list specs then Ok specs
  else extract_single_specialization_fallback soup url.
End Extract.

(** ** [ubc_prereq_scraper.py]: course headings *)

(** The pieces of a backtracking matcher, in continuation-passing style: a
    piece consumes a prefix of the text and hands what it matched and the
    rest to the continuation; when the continuation fails, the piece tries
    its next alternative (a shorter run, the empty option). *)
Section Backtracking.
Context {R : Type}.

(** Greedy [p*]; [taken] is the run consumed so far, reversed. *)
Fixpoint re_star (p : ascii → bool) (taken : str) (s : str)
    (k : str → str → option R) : option R :=
  match s with
  | c :: s' =>
      if p c
      then match re_star p (c :: taken) s' k with
           | Some r => Some r
           | None => k (rev taken) s
           end
      else k (rev taken) s
  | [] => k (rev taken) []
  end.

(** Greedy [p+]. *)
Definition re_plus (p : ascii → bool) (s : str) (k : str → str → option R) : option R :=
  match s with
  | c :: s' => if p c then re_star p [c] s' k else None
  | [] => None
  end.

(** [p?] on one character of a class. *)
Definition re_opt_class (p : ascii → bool) (s : str) (k : str → str → option R) : option R :=
  match (match s with
         | c :: s' => if p c then k [c] s' else None
         | [] => None
         end) with
  | Some r => Some r
  | None => k [] s
  end.

(** [(lit)?]: an optional group, [None] when it takes no part. *)
Definition re_opt_group (lit : str) (s : str) (k : option str → str → option R) : option R :=
  match (if startswith lit s then k (Some lit) (drop (length lit) s) else None) with
  | Some r => Some r
  | None => k None s
  end.

(** One literal character. *)
Definition re_char (ch : ascii) (s : str) (k : str → option R) : option R :=
  match s with
  | c :: s' => if bool_decide (c = ch) then k s' else None
  | [] => None
  end.
End Backtracking.

(** [.] matches anything but a newline. *)
Definition re_dot (c : ascii) : bool := negb (bool_decide (c = newline)).

(** [m.groups()] of a match of the course pattern. *)
Record HeadingGroups : Type := {
  g_subject : str;
  g_campus : option str;
  g_number : str;
  g_credits : str;
  g_title : str
}.

(** [re.match] of the course pattern on [text].  The pattern, written with
    blanks between its pieces, is
      [([A-Z]+) (_V)? \s+ (\d+[A-Z]?) \s+ \( (\d+) \) \s+ ( .* )]. *)
Definition course_heading_match (text : str) : option HeadingGroups :=
  re_plus isAZ text (λ subject s1,
  re_opt_group (py "_V") s1 (λ campus s2,
  re_plus isspace s2 (λ _ s3,
  re_plus isdigit s3 (λ digits s4,
  re_opt_class isAZ s4 (λ letter s5,
  re_plus isspace s5 (λ _ s6,
  re_char "(" s6 (λ s7,
  re_plus isdigit s7 (λ credits s8,
  re_char ")" s8 (λ s9,
  re_plus isspace s9 (λ _ s10,
  re_star re_dot [] s10 (λ title _,
    Some {| g_subject := subject; g_campus := campus;
            g_number := digits ++ letter; g_credits := credits;
            g_title := title |}))))))))))).

(** The dictionary returned by [parse_course_heading]. *)
Record CourseMeta : Type := {
  meta_subject : option str;
  meta_campus_suffix : option str;
  meta_number : option str;
  meta_credits : option str;
  meta_title : str
}.

Definition parse_course_heading (h3_text : str) : CourseMeta :=
  let text := join [space] (split_ws h3_text) in
  match course_heading_match text with
  | None =>
      {| meta_subject := None; meta_campus_suffix := None; meta_number := None;
         meta_credits := None; meta_title := text |}
  | Some m =>
      {| meta_subject := Some (g_subject m);
         meta_campus_suffix := Some (default [] (g_campus m));
         meta_number := Some (g_number m);
         meta_credits := Some (g_credits m);
         meta_title := strip (g_title m) |}
  end.

(** [text.split(sep, 1)[1]] when [sep in text]: what follows the first
    occurrence of [sep]. *)
Fixpoint after_first (sep text : str) : str :=
  if startswith sep text then drop (length sep) text
  else match text with
       | [] => []
       | _ :: text' => after_first sep text'
       end.

Record Course : Type := {
  subject : option str;
  campus_suffix : option str;
  course_number : option str;
  credits : option str;
  title : str;
  description : str;
  prerequisite_raw : option str;
  corequisite_raw : option str;
  exclusion_raw : option str
}.

(** The local variables of the walk of [extract_course_block]. *)
Record BlockState : Type := {
  description_parts : list str;
  prereq_raw : option str;
  coreq_raw : option str;
  excl_raw : option str
}.

Definition course_body (sibling : Node) (st : BlockState) : BlockState :=
  if name_in [py "p"; py "div"; py "li"] sibling
  then
    let text := get_text sibling in
    if truthy text
    then
      {| description_parts := description_parts st ++ [text];
         prereq_raw :=
           if contains (py "Prerequisite:") text
           then Some (strip (after_first (py "Prerequisite:") text))
           else prereq_raw st;
         coreq_raw :=
           if contains (py "Corequisite:") text
           then Some (strip (after_first (py "Corequisite:") text))
           else coreq_raw st;
         excl_raw :=
           if contains (py "Credit will only be granted for one of") text
              || contains (py "Credit will be granted for only one of") text
           then Some text
           else excl_raw st |}
    else st
  else st.

(** [while sibling and sibling.name != "h3"] over the tags that
    [find_next_sibling()] reaches. *)
Fixpoint course_walk (tags : list Node) (st : BlockState) : BlockState :=
  match tags with
  | [] => st
  | sibling :: rest =>
      if name_in [h3] sibling then st
      else course_walk rest (course_body sibling st)
  end.

Definition extract_course_block (heading : Located) : Course :=
  let course_meta := parse_course_heading (get_text (node heading)) in
  let st := course_walk (filter (λ n, is_tag n = true) (next_siblings heading))
              {| description_parts := []; prereq_raw := None;
                 coreq_raw := None; excl_raw := None |} in
  {| subject := meta_subject course_meta;
     campus_suffix := meta_campus_suffix course_meta;
     course_number := meta_number course_meta;
     credits := meta_credits course_meta;
     title := meta_title course_meta;
     description := strip (join [space] (description_parts st));
     prerequisite_raw := prereq_raw st;
     corequisite_raw := coreq_raw st;
     exclusion_raw := excl_raw st |}.

(** Truthiness of a value that is [None] or a string. *)
Definition truthy_opt (o : option str) : bool :=
  match o with
  | None => false
  | Some s => truthy s
  end.

(** One round of the loop of [parse_subject_page]: what is appended to
    [courses] for one [h3]. *)
Definition subject_round (heading : Located) : list Course :=
  let h3_text := get_text (node heading) in
  if negb (existsb isdigit h3_text) then []
  else
    let course := extract_course_block heading in
    if truthy_opt (course_number course) then [course] else [].

(** [parse_subject_page] once the page is fetched and parsed. *)
Definition parse_subject_page (soup : Node) : list Course :=
  concat (map subject_round (find_all [h3] soup)).

(** ** [ai_parse_requirements.py]: the pipeline around the oracle *)

(** A decoded JSON value; an object lists the items of the dictionary, whose
    keys are distinct. *)
#[warnings="-register-all"]
Inductive JSON : Type :=
| JNull
| JBool (b : bool)
| JNum (z : Z)
| JStr (s : str)
| JArr (items : list JSON)
| JObj (fields : list (str * JSON)).

Fixpoint assoc (key : str) (fields : list (str * JSON)) : option JSON :=
  match fields with
  | [] => None
  | (k, v) :: rest => if bool_decide (k = key) then Some v else assoc key rest
  end.

(** [v[key]] for a string key. *)
Definition subscript_key (v : JSON) (key : str) : result JSON :=
  match v with
  | JObj fields =>
      match assoc key fields with
      | Some x => Ok x
      | None => Raise KeyError
      end
  | _ => Raise TypeError
  end.

(** [v[0]]. *)
Definition subscript_zero (v : JSON) : result JSON :=
  match v with
  | JArr (x :: _) => Ok x
  | JArr [] => Raise IndexError
  | JStr (c :: _) => Ok (JStr [c])
  | JStr [] => Raise IndexError
  | JObj _ => Raise KeyError
  | _ => Raise TypeError
  end.

(** [v.get(key, dflt)]: only a dictionary has the method. *)
Definition dict_get (v : JSON) (key : str) (dflt : JSON) : result JSON :=
  match v with
  | JObj fields => Ok (default dflt (assoc key fields))
  | _ => Raise AttributeError
  end.

(** [len(v)]. *)
Definition py_len (v : JSON) : result nat :=
  match v with
  | JStr s => Ok (length s)
  | JArr items => Ok (length items)
  | JObj fields => Ok (length fields)
  | _ => Raise TypeError
  end.

Definition USE_AI : bool := true.

Definition k_program_url : str := py "program_url".
Definition k_specialization_name : str := py "specialization_name".
Definition k_faculty : str := py "faculty".
Definition k_requirements_raw : str := py "requirements_raw".
Definition k_requirements_parsed : str := py "requirements_parsed".

Section Pipeline.
(** The environment: the API key, the two HTTP calls (each either returns
    the body of a successful response or raises), the HTML parser and
    [json.loads].  The first argument of the HTTP calls is the number of
    the record being processed, so that the same request may succeed for
    one record and fail for another. *)
Variable OPENAI_API_KEY : str.
Variable fetch : nat → JSON → result str.
Variable api_post : nat → JSON → result str.
Variable parse_html : str → Node.
Variable json_loads : str → result JSON.

Definition call_openai_parse_requirements
    (i : nat) (spec_obj : gmap str JSON) (requirements_raw : list str) : result JSON :=
  if negb (truthy OPENAI_API_KEY) then Raise RuntimeError
  else
    let payload :=
      JObj [ (k_program_url, default JNull (spec_obj !! k_program_url));
             (k_specialization_name, default JNull (spec_obj !! k_specialization_name));
             (k_faculty, default JNull (spec_obj !! k_faculty));
             (k_requirements_raw, JArr (JStr <$> requirements_raw)) ] in
    body ← api_post i payload;
    response ← json_loads body;
    choices ← subscript_key response (py "choices");
    choice ← subscript_zero choices;
    message ← subscript_key choice (py "message");
    content ← subscript_key message (py "content");
    match content with
    | JStr text => json_loads text
    | _ => Raise TypeError
    end.

(** The [try] block around the oracle: the value stored under
    [requirements_parsed] when nothing raises. *)
Definition ai_parse (i : nat) (spec : gmap str JSON) (raw_lines : list str) : result JSON :=
  parsed ← call_openai_parse_requirements i spec raw_lines;
  requirements ← dict_get parsed (py "requirements") (JArr []);
  _ ← py_len requirements;
  Ok requirements.

Definition no_requirements (spec : gmap str JSON) : gmap str JSON :=
  <[k_requirements_parsed := JNull]> (<[k_requirements_raw := JArr []]> spec).

Definition process_specialization (i : nat) (spec : gmap str JSON)
  : result (gmap str JSON) :=
  url ← from_option Ok (Raise KeyError) (spec !! k_program_url);
  name ← from_option Ok (Raise KeyError) (spec !! k_specialization_name);
  match fetch i url with
  | Raise _ => Ok (no_requirements spec)
  | Ok html =>
      let soup := parse_html html in
      match name with
      | JStr name =>
          match find_specialization_heading soup name with
          | None => Ok (no_requirements spec)
          | Some heading =>
              let raw_lines := extract_requirement_lines_from_block heading in
              let spec := <[k_requirements_raw := JArr (JStr <$> raw_lines)]> spec in
              if USE_AI && truthy_list raw_lines
              then
                match ai_parse i spec raw_lines with
                | Ok requirements => Ok (<[k_requirements_parsed := requirements]> spec)
                | Raise _ => Ok (<[k_requirements_parsed := JNull]> spec)
                end
              else Ok (<[k_requirements_parsed := JNull]> spec)
          end
      | _ => Raise TypeError
      end
  end.

(** The loop of [main] from record number [i] on: [updated_specs]. *)
Fixpoint main_loop (i : nat) (specs : list (gmap str JSON))
  : result (list (gmap str JSON)) :=
  match specs with
  | [] => Ok []
  | spec :: rest =>
      updated ← process_specialization i spec;
      others ← main_loop (S i) rest;
      Ok (updated :: others)
  end.
End Pipeline.

(** ** Predicates used in the statements *)

(** [y] is the text of a tag among [siblings] that is a year heading. *)
Definition label_of (siblings : list Node) (y : str) : Prop :=
  ∃ n, n ∈ siblings ∧ is_tag n = true ∧
       is_year_heading (get_text n) = true ∧ y = get_text n.

(** Every closed group has lines and a year label, and so has the group that
    is open. *)
Definition grouped (siblings : list Node) (st : WalkState) : Prop :=
  (∀ b, b ∈ years st → raw_lines b ≠ [] ∧ label_of siblings (year_label b)) ∧
  (∀ y, current_year st = Some y → label_of siblings y).

(** The tags of [l] are not year headings. *)
Definition no_year_heading (l : list Node) : Prop :=
  ∀ n, n ∈ l → is_tag n = true → is_year_heading (get_text n) = false.

(** Deduplication as the specification words it: the first occurrence of
    a line is kept where it stands and its later copies are removed. *)
Fixpoint keep_first (l : list str) : list str :=
  match l with
  | [] => []
  | x :: rest => x :: filter (λ y, y ≠ x) (keep_first rest)
  end.

(** The cell texts of a table row, in order. *)
Definition row_cells (tr : Node) : list str :=
  map (λ c, get_text (node c)) (find_all [py "td"; py "th"] tr).

(** The line of a row as the specification words it: none when every cell
    is empty, else the non-empty cells joined by [" | "]. *)
Definition row_line_spec (cells : list str) : list str :=
  if existsb truthy cells
  then [join (py " | ") (filter (λ c, truthy c = true) cells)]
  else [].

(** Every line of a year group is trimmed and not empty. *)
Definition trimmed_entries (st : WalkState) : Prop :=
  (∀ b l, b ∈ years st → l ∈ raw_lines b → strip l = l ∧ l ≠ []) ∧
  (∀ l, l ∈ current_entries st → strip l = l ∧ l ≠ []).

(** The text of a heading that [find_specialization_heading] compares with
    the target. *)
Definition heading_text (tag : Located) : str :=
  normalize_text (get_text (node tag)).

(** [a] occurs in [b]. *)
Definition substring (a b : str) : Prop := ∃ pre post, b = pre ++ a ++ post.

(** The match rule of the specification: equal, or one inside the other. *)
Definition heading_fits (target : str) (tag : Located) : Prop :=
  target = heading_text tag ∨ substring target (heading_text tag)
  ∨ substring (heading_text tag) target.

(** The match rule of the code: the same, for a heading with some text. *)
Definition heading_matches (target : str) (tag : Located) : Prop :=
  heading_text tag ≠ [] ∧ heading_fits target tag.

Definition heading_score (target : str) (tag : Located) : Z :=
  Z.abs (Z.of_nat (length (heading_text tag)) - Z.of_nat (length target)).

(** What the loop holds after the headings [tags]: nothing when none
    matched, else the first of the matching headings of least score. *)
Definition best_so_far (target : str) (tags : list Located)
    (best : option (Located * Z)) : Prop :=
  match best with
  | None => ∀ t, t ∈ tags → ¬ heading_matches target t
  | Some (h, score) =>
      score = heading_score target h ∧
      ∃ pre post, tags = pre ++ h :: post ∧ heading_matches target h ∧
        (∀ t, t ∈ pre → heading_matches target t →
              (heading_score target h < heading_score target t)%Z) ∧
        (∀ t, t ∈ post → heading_matches target t →
              (heading_score target h ≤ heading_score target t)%Z)
  end.

(** A record of the input file: it has a URL and a name that is a string. *)
Definition well_formed_spec (spec : gmap str JSON) : Prop :=
  is_Some (spec !! k_program_url) ∧ ∃ name, spec !! k_specialization_name = Some (JStr name).

(** The texts of the year headings of a chain, in document order. *)
Definition year_labels_of (siblings : list Node) : list str :=
  map get_text
      (filter (λ n, is_tag n && is_year_heading (get_text n) = true) siblings).

(** [l] is the trimmed text of a [p], [div] or [li] of the chain that is
    not a year heading. *)
Definition line_from (siblings : list Node) (l : str) : Prop :=
  ∃ m, m ∈ siblings ∧ name_in [py "p"; py "div"; py "li"] m = true ∧
       is_year_heading (get_text m) = false ∧ l = strip (get_text m).

(** Every line collected so far has such a source. *)
Definition sourced (siblings : list Node) (st : WalkState) : Prop :=
  (∀ b l, b ∈ years st → l ∈ raw_lines b → line_from siblings l) ∧
  (∀ l, l ∈ current_entries st → line_from siblings l).

(** The label of the year group that is open, if any. *)
Definition open_label (st : WalkState) : list str :=
  match current_year st with
  | Some y => [y]
  | None => []
  end.

(** The path-segment marker after which the faculty stands. *)
Definition faculty_marker : str := py "faculties-colleges-and-schools".

(** The tags of a chain that stand before its first [h3]. *)
Fixpoint before_h3 (tags : list Node) : list Node :=
  match tags with
  | [] => []
  | t :: rest => if name_in [h3] t then [] else t :: before_h3 rest
  end.

(** The non-empty texts of the [p], [div] and [li] tags of a list. *)
Definition texts_of (tags : list Node) : list str :=
  filter (λ t, truthy t = true)
    (map get_text (filter (λ n, name_in [py "p"; py "div"; py "li"] n = true) tags)).

(** The paragraphs of a course block: the non-empty texts of the [p], [div]
    and [li] tags that follow the heading, up to the next [h3]. *)
Definition block_texts (siblings : list Node) : list str :=
  texts_of (before_h3 (filter (λ n, is_tag n = true) siblings)).

(** [o] when it is set, [d] otherwise. *)
Definition or_else {A : Type} (o d : option A) : option A :=
  match o with Some x => Some x | None => d end.

(** A tag of heading level. *)
Definition is_heading_tag (n : Node) : bool :=
  name_in [py "h1"; h2; h3; h4; py "h5"; py "h6"] n.

(** The member [requirements] of an answer of the oracle, with the default
    of [parsed.get]. *)
Definition requirements_member (fields : list (str * JSON)) : JSON :=
  default (JArr []) (assoc (py "requirements") fields).

(** The outcomes of the call to the oracle at which the [try] block raises:
    the call itself raises (the key is empty, the request fails, the body
    or the content is not JSON, the envelope lacks
    [choices[0].message.content]), what it returns is not a JSON object, or
    the member [requirements] of the object has no length. *)
Definition oracle_fails (answer : result JSON) : Prop :=
  match answer with
  | Raise _ => True
  | Ok (JObj fields) => ∃ e, py_len (requirements_member fields) = Raise e
  | Ok _ => True
  end.

(** An answer of the shape that the contract of the oracle asks for, as the
    specification words it: an object whose member [requirements] is a
    list. *)
Definition contract_answer (answer : JSON) : Prop :=
  ∃ fields items, answer = JObj fields ∧
                  assoc (py "requirements") fields = Some (JArr items).

(** ** Sample page elements *)

(** A tag that holds one piece of text. *)
Definition element (name text : string) : Node :=
  Tag (py name) [NavigableString (py text)].

(** The headings of the example of the specification, and an empty one. *)
Definition sample_headings : list Located :=
  [ Loc (element "h2" "Major in Computer Science") [];
    Loc (element "h3" "Minor in Statistics") [] ].
Definition empty_heading : Located := Loc (Tag h2 []) [].

(** A page without [h1] whose [body] is empty. *)
Definition sample_empty_page : Node :=
  Tag (py "[document]")
    [ Tag (py "html")
        [ Tag (py "head") [ element "title" "Bachelor of Arts" ];
          Tag (py "body") [] ] ].

(** A page without [h1] whose [body] has content. *)
Definition sample_plain_page : Node :=
  Tag (py "[document]")
    [ Tag (py "html")
        [ Tag (py "head") [ element "title" "Bachelor of Arts" ];
          Tag (py "body")
            [ element "h2" "Overview"; element "h3" "First Year";
              element "p" "120 credits required" ] ] ].

(** Two course headings: one the pattern accepts, one it does not although
    it holds a digit. *)
Definition sample_course : Located :=
  Loc (element "h3" "CPSC_V 110 (4) Computation, Programs, and Programming")
      [ element "p" "Fundamental program design. Prerequisite: none." ].
Definition sample_topic : Located := Loc (element "h3" "Topics for 2024") [].

(** A page with one heading and one requirement line, and its record. *)
Definition sample_program_page : Node :=
  Tag (py "[document]")
    [ element "h2" "Major in Computer Science"; element "p" "Take MATH 100" ].
Definition sample_spec : gmap str JSON :=
  <[k_program_url := JStr (py "https://example.org/cs")]>
    (<[k_specialization_name := JStr (py "Computer Science")]> ∅).

(** A block with a repeated paragraph and a list with a short item. *)
Definition sample_block : Located :=
  Loc (element "h2" "Major in Mathematics")
      [ element "p" "Take MATH 100"; element "p" "Take MATH 100";
        Tag (py "ul") [ element "li" "OK"; element "li" "CS 101" ] ].

(** An oracle whose content is valid JSON of the wrong shape: the envelope
    of the chat API around an object whose [requirements] is a string. *)
Definition sample_malformed_answer : JSON :=
  JObj [ (py "requirements", JStr (py "oops")) ].
Definition sample_json_loads (text : str) : result JSON :=
  if bool_decide (text = py "body")
  then Ok (JObj [ (py "choices",
                   JArr [JObj [(py "message",
                                JObj [(py "content", JStr (py "answer"))])]]) ])
  else Ok sample_malformed_answer.

Definition sample_year : Node := element "h3" "First Year".
Definition sample_notes : Node := element "h3" "Notes".
Definition sample_line : Node := element "p" "line1".
Definition sample_short : Node := element "p" "OK".

(** A table with the row of the specification and a row of empty cells. *)
Definition sample_table : Node :=
  Tag (py "table")
    [ Tag (py "tr") [ element "td" "CPSC 110"; Tag (py "td") []; element "td" "3" ];
      Tag (py "tr") [ Tag (py "td") []; Tag (py "td") [] ] ].

(** The last character of the string is white space. *)
Fixpoint ends_ws (s : str) : bool :=
  match s with
  | [] => false
  | [c] => isspace c
  | _ :: s' => ends_ws s'
  end.

(** * Verification *)

Section NormalizeFacts.

Ltac each_char c := destruct c as [[] [] [] [] [] [] [] []]; vm_compute; try reflexivity; try discriminate.

Lemma isspace_lower_char c : isspace (lower_char c) = isspace c.
Proof. each_char c. Qed.

Lemma lower_char_space c : isspace c = true → lower_char c = c.
Proof. each_char c. Qed.

Lemma lower_char_idem c : lower_char (lower_char c) = lower_char c.
Proof. each_char c. Qed.

Lemma lower_idem s : lower (lower s) = lower s.
Proof.
  unfold lower. rewrite map_map. apply map_ext. intros; apply lower_char_idem.
Qed.

Lemma single_spaced_weaken s : single_spaced true s = true → single_spaced false s = true.
Proof.
  destruct s as [|c s]; simpl; [done|].
  destruct (isspace c); [|done]. rewrite andb_false_r. done.
Qed.

Lemma sub_ws_single_spaced b s : single_spaced b (sub_ws b s) = true.
Proof.
  revert b. induction s as [|c s IH]; intros b; simpl; [done|].
  destruct (isspace c) eqn:Hc.
  - destruct b; [apply IH|].
    change (single_spaced false (space :: sub_ws true s)) with
      (bool_decide (space = space) && true && single_spaced true (sub_ws true s)).
    rewrite bool_decide_eq_true_2 by done. simpl. apply IH.
  - simpl. rewrite Hc. apply IH.
Qed.

Lemma sub_ws_fixed b s : single_spaced b s = true → sub_ws b s = s.
Proof.
  revert b. induction s as [|c s IH]; intros b; simpl; [done|].
  destruct (isspace c) eqn:Hc.
  - intros H. apply andb_prop in H as [H H3]. apply andb_prop in H as [H1 H2].
    apply bool_decide_eq_true_1 in H1. destruct b; [done|].
    rewrite IH by done. by rewrite H1.
  - intros H. by rewrite IH.
Qed.

Lemma lstrip_single_spaced b s :
  single_spaced b s = true → single_spaced false (lstrip s) = true.
Proof.
  revert b. induction s as [|c s IH]; intros b; simpl; [done|].
  destruct (isspace c) eqn:Hc.
  - intros H. apply andb_prop in H as [_ H]. by apply (IH true).
  - intros H. simpl. by rewrite Hc.
Qed.

Lemma rstrip_single_spaced b s :
  single_spaced b s = true → single_spaced b (rstrip s) = true.
Proof.
  revert b. induction s as [|c s IH]; intros b; simpl; [done|].
  destruct (isspace c) eqn:Hc.
  - intros H. apply andb_prop in H as [H H3].
    specialize (IH true H3). destruct (rstrip s) as [|d r]; [done|].
    simpl in *. rewrite Hc, H. done.
  - intros H. specialize (IH false H). destruct (rstrip s) as [|d r].
    + simpl. by rewrite Hc.
    + simpl in *. by rewrite Hc.
Qed.

Lemma starts_ws_lstrip s : starts_ws (lstrip s) = false.
Proof.
  induction s as [|c s IH]; simpl; [done|].
  destruct (isspace c) eqn:Hc; [done|]. simpl. done.
Qed.

Lemma lstrip_fixed s : starts_ws s = false → lstrip s = s.
Proof. destruct s as [|c s]; simpl; [done|]. by intros ->. Qed.

Lemma rstrip_idem s : rstrip (rstrip s) = rstrip s.
Proof.
  induction s as [|c s IH]; simpl; [done|].
  destruct (rstrip s) as [|d r] eqn:Hr.
  - destruct (isspace c) eqn:Hc; simpl; [done|]. by rewrite Hc.
  - change (rstrip (c :: d :: r)) with
      (match rstrip (d :: r) with [] => if isspace c then [] else [c] | x => c :: x end).
    by rewrite IH.
Qed.

Lemma starts_ws_rstrip s : starts_ws s = false → starts_ws (rstrip s) = false.
Proof.
  destruct s as [|c s]; simpl; [done|]. intros Hc.
  destruct (rstrip s); simpl; by rewrite ?Hc.
Qed.

Lemma strip_idem s : strip (strip s) = strip s.
Proof.
  unfold strip. rewrite (lstrip_fixed (rstrip (lstrip s))).
  - apply rstrip_idem.
  - apply starts_ws_rstrip, starts_ws_lstrip.
Qed.

Lemma lstrip_lower s : lstrip (lower s) = lower (lstrip s).
Proof.
  induction s as [|c s IH]; simpl; [done|].
  rewrite isspace_lower_char. destruct (isspace c); done.
Qed.

Lemma rstrip_lower s : rstrip (lower s) = lower (rstrip s).
Proof.
  unfold lower. induction s as [|c s IH]; simpl; [done|].
  rewrite IH, isspace_lower_char.
  destruct (rstrip s); simpl; [|done]. by destruct (isspace c).
Qed.

Lemma strip_lower s : strip (lower s) = lower (strip s).
Proof. unfold strip. by rewrite lstrip_lower, rstrip_lower. Qed.

Lemma sub_ws_lower b s : sub_ws b (lower s) = lower (sub_ws b s).
Proof.
  revert b. induction s as [|c s IH]; intros b; simpl; [done|].
  rewrite isspace_lower_char. unfold lower in IH.
  destruct (isspace c); [destruct b|]; simpl; by rewrite IH.
Qed.

Lemma strip_single_spaced s :
  single_spaced false s = true → single_spaced false (strip s) = true.
Proof.
  intros H. unfold strip. apply rstrip_single_spaced.
  by apply (lstrip_single_spaced false).
Qed.

End NormalizeFacts.

(** C4. The text normalizer is idempotent: normalizing a normalized string
    changes nothing. *)
Theorem normalize_text_idempotent (s : str) :
  normalize_text (normalize_text s) = normalize_text s.
Proof.
  unfold normalize_text, re_sub_ws.
  rewrite sub_ws_lower, strip_lower, lower_idem. f_equal.
  rewrite (sub_ws_fixed false (strip (sub_ws false s))).
  - apply strip_idem.
  - apply strip_single_spaced, sub_ws_single_spaced.
Qed.

(** ** The sibling walk *)

Section WalkFacts.
Context {A : Type} (body : nat → Node → A → option A).

(** A round that does not end the loop moves the cursor one sibling on. *)
Lemma step_forward siblings c c' :
  step body siblings c = inl c' →
  pos c' = S (pos c) ∧ pos c < length siblings.
Proof.
  unfold step. destruct (siblings !! pos c) as [n|] eqn:Hn; [|discriminate].
  apply lookup_lt_Some in Hn.
  destruct (negb (node_truthy n)); [discriminate|].
  destruct (body (pos c) n (acc c)); [|discriminate].
  intros [= <-]. simpl. auto.
Qed.

Lemma run_unfold fuel siblings c :
  run body (S fuel) siblings c =
  match step body siblings c with
  | inr a => Some (a, [pos c])
  | inl c' =>
      match run body fuel siblings c' with
      | Some (a, trace) => Some (a, pos c :: trace)
      | None => None
      end
  end.
Proof. reflexivity. Qed.

(** The machine started at any position ends within as many rounds as there
    are siblings ahead, with the result of the loop. *)
Lemma run_loop pre siblings a :
  ∃ k, k ≤ length siblings ∧
    run body (S (length siblings)) (pre ++ siblings) {| pos := length pre; acc := a |}
    = Some (loop body (length pre) siblings a, seq (length pre) (S k)).
Proof.
  revert pre a. induction siblings as [|n rest IH]; intros pre a.
  - exists 0. split; [done|]. simpl. unfold step. simpl.
    rewrite lookup_ge_None_2; [done|]. rewrite length_app. simpl. lia.
  - cbn [length]. rewrite run_unfold. unfold step at 1. cbn [pos acc].
    rewrite list_lookup_middle by done. cbn [loop].
    destruct (negb (node_truthy n)).
    { exists 0. split; [lia|done]. }
    destruct (body (length pre) n a) as [a'|].
    2:{ exists 0. split; [lia|done]. }
    specialize (IH (pre ++ [n]) a'). rewrite <- app_assoc in IH.
    change ([n] ++ rest) with (n :: rest) in IH.
    replace (length (pre ++ [n])) with (S (length pre)) in IH
      by (rewrite length_app; simpl; lia).
    destruct IH as (k & Hk & Hrun).
    exists (S k). split; [lia|]. by rewrite Hrun.
Qed.

Lemma loop_app_stop i pre h post a :
  (∀ j a', body j h a' = None) →
  loop body i (pre ++ h :: post) a = loop body i pre a.
Proof.
  intros Hstop. revert i a. induction pre as [|n pre IH]; intros i a; simpl.
  - rewrite Hstop. by destruct (negb (node_truthy h)).
  - destruct (negb (node_truthy n)); [done|].
    destruct (body i n a); [apply IH|done].
Qed.

Lemma loop_index i j siblings a :
  (∀ i j n a, body i n a = body j n a) →
  loop body i siblings a = loop body j siblings a.
Proof.
  intros Hirr. revert i j a. induction siblings as [|n rest IH]; intros i j a; simpl; [done|].
  destruct (negb (node_truthy n)); [done|].
  rewrite (Hirr i j). destruct (body j n a); [apply IH|done].
Qed.

Lemma loop_app_skip i pre h post a :
  (∀ i j n a, body i n a = body j n a) →
  node_truthy h = true →
  (∀ j a', body j h a' = Some a') →
  loop body i (pre ++ h :: post) a = loop body i (pre ++ post) a.
Proof.
  intros Hirr Ht Hskip. revert i a. induction pre as [|n pre IH]; intros i a; simpl.
  - rewrite Ht, Hskip. simpl. by apply loop_index.
  - destruct (negb (node_truthy n)); [done|].
    destruct (body i n a); [apply IH|done].
Qed.

(** A property of the state kept by every round over the siblings holds
    when the loop ends. *)
Lemma loop_invariant (P : A → Prop) i siblings a :
  P a →
  (∀ j n a a', n ∈ siblings → P a → body j n a = Some a' → P a') →
  P (loop body i siblings a).
Proof.
  revert i a. induction siblings as [|n rest IH]; intros i a Ha Hstep; simpl; [done|].
  destruct (negb (node_truthy n)); [done|].
  destruct (body i n a) as [a'|] eqn:Hb; [|done].
  apply IH.
  - eapply Hstep; [|done|done]. left.
  - intros j m b b' Hm. apply Hstep. by right.
Qed.

(** Over [pre ++ rest] the loop either ends inside [pre] or goes on over
    [rest] from the state reached at the end of [pre]. *)
Lemma loop_app i pre rest a :
  loop body i (pre ++ rest) a = loop body i pre a ∨
  loop body i (pre ++ rest) a = loop body (i + length pre) rest (loop body i pre a).
Proof.
  revert i a. induction pre as [|n pre IH]; intros i a; simpl.
  - right. by rewrite Nat.add_0_r.
  - destruct (negb (node_truthy n)); [by left|].
    destruct (body i n a) as [a'|]; [|by left].
    replace (i + S (length pre)) with (S i + length pre) by lia. apply IH.
Qed.
End WalkFacts.

(** The loop-safety set of the fallback walk holds the positions already
    left behind, so its test never ends the walk. *)
Lemma fallback_visited_behind i siblings st :
  (∀ j, j ∈ visited st → j < i) →
  page (loop fallback_body i siblings st) = loop plain_body i siblings (page st).
Proof.
  revert i st. induction siblings as [|n rest IH]; intros i st Hv; simpl; [done|].
  destruct (negb (node_truthy n)); [done|].
  unfold fallback_body, plain_body.
  rewrite bool_decide_eq_false_2 by (intros Hi; apply Hv in Hi; lia).
  destruct (negb (is_tag n)); rewrite IH; try done;
    simpl; intros j; rewrite elem_of_union, elem_of_singleton;
    intros [->|Hj]; [lia|apply Hv in Hj; lia|lia|apply Hv in Hj; lia].
Qed.

Lemma fallback_years_plain siblings :
  fallback_years siblings = flushed (loop plain_body 0 siblings walk_start).
Proof.
  unfold fallback_years. rewrite fallback_visited_behind; [done|].
  simpl. intros j Hj. by apply not_elem_of_empty in Hj.
Qed.

(** C7. Each walk over a finite chain of siblings ends: the cursor machine
    started at the first sibling halts within one round per sibling (plus
    the round that finds the end of the chain) with the result of the loop,
    whether or not a terminating heading is met, and the positions at which
    it tested the loop condition are 0, 1, ..., k in this order: strictly
    forward, none twice.  This holds for the walk of
    [extract_requirement_lines_from_block], for the walk of one
    specialization and for the whole-page fallback with its loop-safety
    set. *)
Theorem walk_terminates (siblings : list Node) :
  (∃ k, k ≤ length siblings ∧
     run block_body (S (length siblings)) siblings {| pos := 0; acc := [] |}
     = Some (collect_lines siblings, seq 0 (S k))) ∧
  (∃ k, k ≤ length siblings ∧
     run section_body (S (length siblings)) siblings {| pos := 0; acc := walk_start |}
     = Some (loop section_body 0 siblings walk_start, seq 0 (S k))) ∧
  (∃ k st, k ≤ length siblings ∧
     run fallback_body (S (length siblings)) siblings
         {| pos := 0; acc := {| visited := ∅; page := walk_start |} |}
     = Some (st, seq 0 (S k)) ∧ flushed (page st) = fallback_years siblings).
Proof.
  repeat split.
  - apply (run_loop block_body []).
  - apply (run_loop section_body []).
  - destruct (run_loop fallback_body [] siblings {| visited := ∅; page := walk_start |})
      as (k & Hk & Hrun).
    exists k. eexists. split; [done|]. split; [exact Hrun|done].
Qed.

(** ** Year grouping *)

Lemma flushed_grouped siblings st b :
  grouped siblings st → b ∈ flushed st →
  raw_lines b ≠ [] ∧ label_of siblings (year_label b).
Proof.
  intros [Hy Hc]. unfold flushed.
  destruct (current_year st) as [y|] eqn:Hcur; [|apply Hy].
  destruct (current_entries st) as [|e es] eqn:He; simpl; [apply Hy|].
  rewrite elem_of_app, list_elem_of_singleton. intros [Hb| ->]; [by apply Hy|].
  simpl. split; [done|]. by apply Hc.
Qed.

Lemma year_step_grouped siblings n st :
  n ∈ siblings → is_tag n = true →
  grouped siblings st → grouped siblings (year_step n st).
Proof.
  intros Hn Htag Hg. unfold year_step.
  destruct (is_year_heading (get_text n)) eqn:Hyear.
  - split; simpl.
    + intros b Hb. by eapply flushed_grouped.
    + intros y [= <-]. by exists n.
  - unfold collect_entry. destruct Hg as [Hy Hc].
    destruct (current_year st) as [y|] eqn:Hcur; [|by split; [|rewrite Hcur]].
    destruct (name_in _ n); [|by split; [|rewrite Hcur]].
    destruct (truthy (strip (get_text n))); [|by split; [|rewrite Hcur]].
    split; simpl; [done|]. intros y' [= <-]. by apply Hc.
Qed.

Lemma walk_start_grouped siblings : grouped siblings walk_start.
Proof. split; simpl; [|done]. intros b Hb. by apply elem_of_nil in Hb. Qed.

Lemma section_years_grouped siblings b :
  b ∈ section_years siblings →
  raw_lines b ≠ [] ∧ label_of siblings (year_label b).
Proof.
  apply flushed_grouped, loop_invariant; [apply walk_start_grouped|].
  intros j n a a' Hn Ha. unfold section_body.
  destruct (name_in [h3; h4] n && _); [done|].
  destruct (is_tag n) eqn:Htag; simpl; intros [= <-]; [|done].
  by apply year_step_grouped.
Qed.

Lemma fallback_years_grouped siblings b :
  b ∈ fallback_years siblings →
  raw_lines b ≠ [] ∧ label_of siblings (year_label b).
Proof.
  rewrite fallback_years_plain.
  apply flushed_grouped, loop_invariant; [apply walk_start_grouped|].
  intros j n a a' Hn Ha. unfold plain_body.
  destruct (is_tag n) eqn:Htag; simpl; intros [= <-]; [|done].
  by apply year_step_grouped.
Qed.

Lemma year_step_before_year n :
  is_year_heading (get_text n) = false → year_step n walk_start = walk_start.
Proof. intros H. unfold year_step. by rewrite H. Qed.

Lemma section_loop_before_year i pre :
  no_year_heading pre → loop section_body i pre walk_start = walk_start.
Proof.
  intros Hpre. apply (loop_invariant section_body (λ st, st = walk_start)); [done|].
  intros j n a a' Hn ->. unfold section_body.
  destruct (name_in [h3; h4] n && _); [done|].
  destruct (is_tag n) eqn:Htag; simpl; intros [= <-]; [|done].
  apply year_step_before_year. by apply Hpre.
Qed.

Lemma plain_loop_before_year i pre :
  no_year_heading pre → loop plain_body i pre walk_start = walk_start.
Proof.
  intros Hpre. apply (loop_invariant plain_body (λ st, st = walk_start)); [done|].
  intros j n a a' Hn ->. unfold plain_body.
  destruct (is_tag n) eqn:Htag; simpl; intros [= <-]; [|done].
  apply year_step_before_year. by apply Hpre.
Qed.

Lemma section_years_skip pre rest :
  no_year_heading pre →
  section_years (pre ++ rest) = section_years rest ∨ section_years (pre ++ rest) = [].
Proof.
  intros Hpre. unfold section_years.
  destruct (loop_app section_body 0 pre rest walk_start) as [-> | ->];
    rewrite section_loop_before_year by done.
  - by right.
  - left. f_equal. by apply loop_index.
Qed.

Lemma fallback_years_skip pre rest :
  no_year_heading pre →
  fallback_years (pre ++ rest) = fallback_years rest ∨ fallback_years (pre ++ rest) = [].
Proof.
  intros Hpre. rewrite !fallback_years_plain.
  destruct (loop_app plain_body 0 pre rest walk_start) as [-> | ->];
    rewrite plain_loop_before_year by done.
  - by right.
  - left. f_equal. by apply loop_index.
Qed.

(** C10. In the walk of one specialization and in the whole-page fallback,
    the siblings met before the first year heading contribute nothing: when
    no tag of [pre] is a year heading (a tag, of whatever name, whose text
    [is_year_heading] accepts), the groups found over [pre ++ rest] are those found over
    [rest] alone, or none when the walk ends inside [pre].  Every group of
    the output has at least one line and is labelled by the text of a year
    heading that stands in [rest], and a chain without year heading gives no
    group at all, whatever its paragraphs are. *)
Theorem year_grouping (pre rest : list Node) :
  no_year_heading pre →
  (section_years (pre ++ rest) = section_years rest ∨ section_years (pre ++ rest) = []) ∧
  (fallback_years (pre ++ rest) = fallback_years rest ∨ fallback_years (pre ++ rest) = []) ∧
  (∀ b, b ∈ section_years (pre ++ rest) ∨ b ∈ fallback_years (pre ++ rest) →
        raw_lines b ≠ [] ∧ label_of rest (year_label b)) ∧
  section_years pre = [] ∧ fallback_years pre = [].
Proof.
  intros Hpre. split; [by apply section_years_skip|]. split; [by apply fallback_years_skip|].
  split.
  - intros b [Hb|Hb].
    + destruct (section_years_skip pre rest Hpre) as [E|E]; rewrite E in Hb.
      * by apply section_years_grouped.
      * by apply elem_of_nil in Hb.
    + destruct (fallback_years_skip pre rest Hpre) as [E|E]; rewrite E in Hb.
      * by apply fallback_years_grouped.
      * by apply elem_of_nil in Hb.
  - split.
    + destruct (section_years_skip pre [] Hpre) as [E|E];
        rewrite app_nil_r in E; by rewrite E.
    + destruct (fallback_years_skip pre [] Hpre) as [E|E];
        rewrite app_nil_r in E; by rewrite E.
Qed.

(** C10 at a sample chain: the paragraph before "First Year" is dropped, the
    one after it is kept under that label. *)
Lemma year_grouping_witness :
  section_years ([sample_short] ++ [sample_year; sample_line])
  = [ {| year_label := py "First Year"; raw_lines := [py "line1"] |} ] ∧
  fallback_years [sample_short; sample_line] = [].
Proof.
  assert (no_year_heading [sample_short]) as Hpre.
  { intros n ->%list_elem_of_singleton _. reflexivity. }
  assert (no_year_heading [sample_short; sample_line]) as Hall.
  { intros n [->| ->%list_elem_of_singleton]%elem_of_cons _; reflexivity. }
  split.
  - destruct (year_grouping [sample_short] [sample_year; sample_line] Hpre)
      as ([E|E] & _); rewrite E; [reflexivity|discriminate E].
  - apply (year_grouping [sample_short; sample_line] [] Hall).
Defined.

(** C10 as stated fails when a year heading is taken to be a tag of heading
    level: the walks test the text of every tag, so a paragraph that reads
    "First Year" opens a group, and a chain without any heading gives a
    group with the paragraph that follows. *)
Lemma paragraph_opens_year :
  ¬ (∀ siblings : list Node,
       (∀ n, n ∈ siblings → is_heading_tag n = true →
             is_year_heading (get_text n) = false) →
       section_years siblings = [] ∧ fallback_years siblings = []).
Proof.
  intros H.
  destruct (H [element "p" "First Year"; element "p" "CPSC 110"]) as [Hsection _].
  - intros n Hn Hheading.
    repeat (apply elem_of_cons in Hn as [->|Hn]); try discriminate Hheading.
    by apply elem_of_nil in Hn.
  - discriminate Hsection.
Qed.

(** ** Section boundaries *)

Lemma name_in_cases names n :
  name_in names n = true → ∃ name cs, n = Tag name cs ∧ name ∈ names.
Proof.
  destruct n as [t|name cs]; simpl; [done|].
  intros H%bool_decide_eq_true. eauto.
Qed.

Lemma heading_is_tag n : name_in [h2; h3; h4] n = true → is_tag n = true.
Proof. by intros (name & cs & -> & _)%name_in_cases. Qed.

Lemma heading_not_content n :
  name_in [h2; h3; h4] n = true → name_in [py "p"; py "div"; py "li"] n = false.
Proof.
  intros (name & cs & -> & Hn)%name_in_cases. simpl.
  repeat (apply elem_of_cons in Hn as [->|Hn]); [| | |by apply elem_of_nil in Hn];
    by vm_compute.
Qed.

Lemma block_body_heading n j lines :
  name_in [h2; h3; h4] n = true → block_body j n lines = None.
Proof.
  intros H. unfold block_body. rewrite (heading_is_tag n H). simpl.
  destruct n; [done|]. simpl in *. by rewrite H.
Qed.

Lemma section_body_index i j n st : section_body i n st = section_body j n st.
Proof. done. Qed.

Lemma section_body_other_heading n j st :
  name_in [h2; h3; h4] n = true →
  name_in [h3; h4] n && is_specialization_heading (get_text n) = false →
  is_year_heading (get_text n) = false →
  section_body j n st = Some st.
Proof.
  intros Hh Hspec Hyear. unfold section_body. rewrite Hspec, (heading_is_tag n Hh). simpl.
  unfold year_step, collect_entry. rewrite Hyear, (heading_not_content n Hh).
  by destruct (current_year st).
Qed.

(** C1, as the code has it.  In [extract_requirement_lines_from_block] every
    [h2], [h3] or [h4] ends the walk and gives no line.  In the walk of one
    specialization of [extract_specializations_with_headings] only an [h3]
    or [h4] whose text is a specialization heading ends the walk; any other
    heading-level tag that is not a year heading is stepped over: it gives
    no line and the walk goes on with the siblings after it. *)
Theorem heading_boundaries (pre post : list Node) (h : Node) :
  name_in [h2; h3; h4] h = true →
  collect_lines (pre ++ h :: post) = collect_lines pre ∧
  (∀ start, extract_requirement_lines_from_block (Loc start (pre ++ h :: post))
            = extract_requirement_lines_from_block (Loc start pre)) ∧
  (name_in [h3; h4] h && is_specialization_heading (get_text h) = true →
   section_years (pre ++ h :: post) = section_years pre) ∧
  (name_in [h3; h4] h && is_specialization_heading (get_text h) = false →
   is_year_heading (get_text h) = false →
   section_years (pre ++ h :: post) = section_years (pre ++ post)).
Proof.
  intros Hh.
  assert (collect_lines (pre ++ h :: post) = collect_lines pre) as Hblock.
  { unfold collect_lines. apply loop_app_stop. intros j a. by apply block_body_heading. }
  split; [done|]. split; [|split].
  - intros start. unfold extract_requirement_lines_from_block. simpl. by rewrite Hblock.
  - intros Hspec. unfold section_years. f_equal. apply loop_app_stop.
    intros j a. unfold section_body. by rewrite Hspec.
  - intros Hspec Hyear. unfold section_years. f_equal. apply loop_app_skip.
    + intros. apply section_body_index.
    + apply heading_is_tag in Hh. by destruct h.
    + intros j a. by apply section_body_other_heading.
Qed.

(** C1 at a sample chain: the [h4] ends the block walk, the "Notes" heading
    does not end the walk of the specialization. *)
Lemma heading_boundaries_witness :
  collect_lines ([sample_line] ++ element "h4" "Electives" :: [sample_short])
  = collect_lines [sample_line] ∧
  section_years ([sample_year] ++ sample_notes :: [sample_line])
  = section_years ([sample_year] ++ [sample_line]).
Proof.
  split.
  - apply (heading_boundaries [sample_line] [sample_short] (element "h4" "Electives")).
    reflexivity.
  - apply (heading_boundaries [sample_year] [sample_line] sample_notes); reflexivity.
Defined.

(** C1 as stated fails: the heading "Notes" is neither a specialization
    heading nor a year heading, and the paragraph after it is still
    collected into the year that is open. *)
Lemma heading_not_terminator :
  ¬ (∀ (pre post : list Node) (h : Node),
       name_in [h2; h3; h4] h = true →
       is_specialization_heading (get_text h) = false →
       is_year_heading (get_text h) = false →
       section_years (pre ++ h :: post) = section_years pre).
Proof.
  intros H. specialize (H [sample_year] [sample_line] sample_notes).
  vm_compute in H. by specialize (H eq_refl eq_refl eq_refl).
Qed.

(** ** Clean-up of the collected lines *)

Lemma keep_first_elem x l : x ∈ keep_first l ↔ x ∈ l.
Proof.
  induction l as [|y l IH]; simpl; [done|].
  rewrite !elem_of_cons, list_elem_of_filter, IH.
  destruct (decide (x = y)) as [->|Hne]; [tauto|]. intuition congruence.
Qed.

Lemma keep_first_NoDup l : NoDup (keep_first l).
Proof.
  induction l as [|y l IH]; simpl; [constructor|].
  apply NoDup_cons. split; [|by apply NoDup_filter].
  rewrite list_elem_of_filter. tauto.
Qed.

Lemma keep_first_sublist l : keep_first l `sublist_of` l.
Proof.
  induction l as [|y l IH]; simpl; [done|].
  apply sublist_skip. etrans; [apply sublist_filter|done].
Qed.

(** The loop computes the specification's deduplication of the trimmed
    lines of three characters or more, but for what [seen] already holds. *)
Lemma clean_loop_spec lines seen cleaned :
  clean_loop lines seen cleaned =
  cleaned ++ filter (λ l, l ∉ seen)
               (keep_first (filter (λ l, 3 ≤ length l) (strip <$> lines))).
Proof.
  revert seen cleaned. induction lines as [|ln rest IH]; intros seen cleaned; simpl.
  { by rewrite app_nil_r. }
  rewrite filter_cons. destruct (length (strip ln) <? 3) eqn:Hlen.
  - apply Nat.ltb_lt in Hlen. rewrite decide_False by lia. apply IH.
  - apply Nat.ltb_ge in Hlen. rewrite decide_True by done. simpl.
    rewrite filter_cons. case_bool_decide as Hseen.
    + rewrite decide_False by tauto. rewrite IH. f_equal.
      rewrite list_filter_filter. apply list_filter_iff. intros l.
      split; [|tauto]. intros Hl. split; [done|]. by intros ->.
    + rewrite decide_True by done. rewrite IH, <- app_assoc. simpl. do 2 f_equal.
      rewrite list_filter_filter. apply list_filter_iff. intros l.
      rewrite not_elem_of_union, not_elem_of_singleton. tauto.
Qed.

Lemma clean_lines_spec lines :
  clean_lines lines = keep_first (filter (λ l, 3 ≤ length l) (strip <$> lines)).
Proof.
  unfold clean_lines. rewrite clean_loop_spec. simpl.
  generalize (keep_first (filter (λ l, 3 ≤ length l) (strip <$> lines))).
  intros ls. induction ls as [|x ls IH]; [done|].
  rewrite filter_cons_True by apply not_elem_of_empty. by rewrite IH.
Qed.

Lemma flushed_trimmed st b l :
  trimmed_entries st → b ∈ flushed st → l ∈ raw_lines b → strip l = l ∧ l ≠ [].
Proof.
  intros [Hy Hc]. unfold flushed.
  destruct (current_year st) as [y|]; [|apply Hy].
  destruct (truthy_list (current_entries st)); [|apply Hy].
  rewrite elem_of_app, list_elem_of_singleton. intros [Hb| ->]; [by apply Hy|].
  simpl. apply Hc.
Qed.

Lemma year_step_trimmed n st : trimmed_entries st → trimmed_entries (year_step n st).
Proof.
  intros Ht. unfold year_step. destruct (is_year_heading (get_text n)).
  - split; simpl.
    + intros b l. by apply flushed_trimmed.
    + destruct Ht as [_ Hc]. destruct (current_year st); [|done].
      destruct (truthy_list (current_entries st)); [|done].
      intros l Hl. by apply elem_of_nil in Hl.
  - unfold collect_entry. destruct (current_year st); [|done].
    destruct (name_in _ n); [|done].
    destruct (truthy (strip (get_text n))) eqn:Hline; [|done].
    destruct Ht as [Hy Hc]. split; simpl; [done|].
    intros l. rewrite elem_of_app, list_elem_of_singleton. intros [Hl| ->]; [by apply Hc|].
    split; [apply strip_idem|]. by destruct (strip (get_text n)).
Qed.

Lemma walk_start_trimmed : trimmed_entries walk_start.
Proof.
  split; simpl.
  - intros b l Hb. by apply elem_of_nil in Hb.
  - intros l Hl. by apply elem_of_nil in Hl.
Qed.

Lemma section_years_trimmed siblings b l :
  b ∈ section_years siblings → l ∈ raw_lines b → strip l = l ∧ l ≠ [].
Proof.
  apply flushed_trimmed, loop_invariant; [apply walk_start_trimmed|].
  intros j n a a' _ Ha. unfold section_body.
  destruct (name_in [h3; h4] n && _); [done|].
  destruct (negb (is_tag n)); intros [= <-]; [done|]. by apply year_step_trimmed.
Qed.

Lemma fallback_years_trimmed siblings b l :
  b ∈ fallback_years siblings → l ∈ raw_lines b → strip l = l ∧ l ≠ [].
Proof.
  rewrite fallback_years_plain.
  apply flushed_trimmed, loop_invariant; [apply walk_start_trimmed|].
  intros j n a a' _ Ha. unfold plain_body.
  destruct (negb (is_tag n)); intros [= <-]; [done|]. by apply year_step_trimmed.
Qed.

(** C2, as the code has it.  The lines returned by
    [extract_requirement_lines_from_block] are the trimmed collected lines
    of three characters or more, each kept at its first occurrence: there is
    no duplicate, every line is trimmed and has at least three characters,
    and the lines stand in the order of the collected ones.  The
    year-grouped walks of [scrape_requirements_raw.py] only trim and drop
    empty lines. *)
Theorem cleaned_lines (start : Located) (siblings : list Node) :
  let lines := collect_lines (next_siblings start) in
  let out := extract_requirement_lines_from_block start in
  out = keep_first (filter (λ l, 3 ≤ length l) (strip <$> lines)) ∧
  NoDup out ∧
  (∀ l, l ∈ out ↔ 3 ≤ length l ∧ l ∈ strip <$> lines) ∧
  (∀ l, l ∈ out → strip l = l ∧ 3 ≤ length (strip l)) ∧
  out `sublist_of` (strip <$> lines) ∧
  (∀ b l, b ∈ section_years siblings ∨ b ∈ fallback_years siblings →
          l ∈ raw_lines b → strip l = l ∧ l ≠ []).
Proof.
  intros lines out.
  assert (out = keep_first (filter (λ l, 3 ≤ length l) (strip <$> lines))) as Hout
    by apply clean_lines_spec.
  assert (∀ l, l ∈ out ↔ 3 ≤ length l ∧ l ∈ strip <$> lines) as Hin.
  { intros l. by rewrite Hout, keep_first_elem, list_elem_of_filter. }
  split; [done|]. split; [rewrite Hout; apply keep_first_NoDup|].
  split; [done|]. split; [|split].
  - intros l [Hlen (raw & -> & _)%list_elem_of_fmap]%Hin.
    by rewrite strip_idem.
  - rewrite Hout. etrans; [apply keep_first_sublist|apply sublist_filter].
  - intros b l [Hb|Hb].
    + by apply (section_years_trimmed siblings b).
    + by apply (fallback_years_trimmed siblings b).
Qed.

(** C2 at the examples of the specification: the repeated paragraph comes
    out once, the two-character item is dropped, "CS 101" is kept. *)
Lemma cleaned_lines_witness :
  extract_requirement_lines_from_block sample_block = [py "Take MATH 100"; py "CS 101"] ∧
  NoDup (extract_requirement_lines_from_block sample_block).
Proof.
  destruct (cleaned_lines sample_block []) as (Hout & Hnodup & _).
  split; [|exact Hnodup]. rewrite Hout. reflexivity.
Defined.

(** C2 as stated fails for the year-grouped walk: under "First Year" the
    two-character paragraph "OK" is kept, and kept twice. *)
Lemma year_lines_not_cleaned :
  ¬ (∀ (siblings : list Node) (b : YearBlock),
       b ∈ section_years siblings →
       NoDup (raw_lines b) ∧ ∀ l, l ∈ raw_lines b → 3 ≤ length (strip l)).
Proof.
  intros H.
  destruct (H [sample_year; sample_short; sample_short]
              {| year_label := py "First Year"; raw_lines := [py "OK"; py "OK"] |})
    as [_ Hlen].
  { apply list_elem_of_singleton. reflexivity. }
  specialize (Hlen (py "OK")). simpl in Hlen.
  assert (3 ≤ 2) by (apply Hlen; left). lia.
Qed.

(** ** Table rows *)

Lemma block_loop_acc i siblings lines :
  loop block_body i siblings lines = lines ++ loop block_body i siblings [].
Proof.
  revert i lines. induction siblings as [|n rest IH]; intros i lines; simpl.
  { by rewrite app_nil_r. }
  destruct (negb (node_truthy n)); [by rewrite app_nil_r|].
  unfold block_body. destruct (negb (is_tag n)); [apply IH|].
  destruct (is_block_terminator n); [by rewrite app_nil_r|].
  rewrite IH, (IH _ ([] ++ node_lines n)). by rewrite app_assoc.
Qed.

(** Joining pieces that are not empty gives the empty string only when
    there is no piece. *)
Lemma join_nonempty sep parts :
  Forall (λ p, truthy p = true) parts →
  truthy (join sep parts) = truthy_list parts.
Proof.
  destruct 1 as [|p parts Hp _]; [done|]. simpl.
  destruct p; [done|]. by destruct parts.
Qed.

Lemma filter_truthy_exists cells :
  truthy_list (filter (λ c, truthy c = true) cells) = existsb truthy cells.
Proof.
  induction cells as [|c cells IH]; [done|].
  rewrite filter_cons. simpl. destruct (truthy c); simpl; [done|apply IH].
Qed.

Lemma row_text_line tr :
  (if truthy (row_text tr) then [row_text tr] else []) = row_line_spec (row_cells tr).
Proof.
  unfold row_text, row_line_spec. fold (row_cells tr).
  rewrite join_nonempty, filter_truthy_exists; [done|].
  apply Forall_forall. intros p. rewrite list_elem_of_filter. by intros [? _].
Qed.

Lemma table_lines_rows n :
  name_in [py "table"] n = true →
  node_lines n = concat (map (λ tr, row_line_spec (row_cells (node tr))) (find_all [py "tr"] n)).
Proof.
  intros Hn. unfold node_lines, paragraph_lines, list_lines, table_lines. rewrite Hn.
  apply name_in_cases in Hn as (name & cs & -> & ->%list_elem_of_singleton).
  change (name_in [py "p"; py "div"] (Tag (py "table") cs)) with false.
  change (name_in [py "ul"; py "ol"] (Tag (py "table") cs)) with false.
  cbv iota. cbn [app]. generalize (find_all [py "tr"] (Tag (py "table") cs)).
  intros trs. induction trs as [|tr trs IH]; [done|].
  cbn [map concat]. rewrite <- row_text_line, <- IH, filter_cons.
  by destruct (truthy (row_text (node tr))).
Qed.

(** C5. When the block segmenter meets a table, every row of the table
    gives the walk exactly one line, its non-empty cell texts joined by
    [" | "], but a row whose cells are all empty, which gives none; the
    lines of the rows are appended in document order and the walk goes on
    with the next sibling.  The row with cells "CPSC 110", empty and "3"
    gives "CPSC 110 | 3", which is also what the whole function returns for
    the sample table. *)
Theorem table_rows (n : Node) (rest : list Node) :
  name_in [py "table"] n = true →
  collect_lines (n :: rest)
  = concat (map (λ tr, row_line_spec (row_cells (node tr))) (find_all [py "tr"] n))
    ++ collect_lines rest ∧
  (∀ cells, length (row_line_spec cells) ≤ 1 ∧
            (row_line_spec cells = [] ↔ Forall (λ c, c = []) cells)) ∧
  row_line_spec [py "CPSC 110"; []; py "3"] = [py "CPSC 110 | 3"] ∧
  (∀ start, extract_requirement_lines_from_block (Loc start [sample_table])
            = [py "CPSC 110 | 3"]).
Proof.
  intros Hn. split; [|split; [|split; [reflexivity|intros start; reflexivity]]].
  - rewrite <- table_lines_rows by done.
    unfold collect_lines. cbn [loop].
    apply name_in_cases in Hn as (name & cs & -> & ->%list_elem_of_singleton).
    change (block_body 0 (Tag (py "table") cs) [])
      with (Some ([] ++ node_lines (Tag (py "table") cs))).
    simpl negb. cbv iota. rewrite block_loop_acc. f_equal.
    apply (loop_index block_body). done.
  - intros cells. unfold row_line_spec. split.
    + destruct (existsb truthy cells); simpl; lia.
    + destruct (existsb truthy cells) eqn:He.
      * split; [done|]. intros Hall. apply existsb_exists in He as (c & Hc & Ht).
        apply list_elem_of_In in Hc.
        rewrite Forall_forall in Hall. by rewrite (Hall c Hc) in Ht.
      * split; [|done]. intros _. apply Forall_forall. intros c Hc.
        destruct c as [|a c]; [done|].
        assert (existsb truthy cells = true) as He'; [|congruence].
        apply existsb_exists. exists (a :: c). split; [|done].
        by apply list_elem_of_In.
Qed.

(** C5 at the sample table: one line for the row of the specification,
    none for the row of empty cells. *)
Lemma table_rows_witness :
  collect_lines (sample_table :: [sample_line]) = [py "CPSC 110 | 3"; py "line1"].
Proof.
  etrans.
  - apply (table_rows sample_table [sample_line]). reflexivity.
  - reflexivity.
Defined.

(** ** The heading matcher *)

Lemma startswith_spec p s : startswith p s = true ↔ ∃ post, s = p ++ post.
Proof.
  revert s. induction p as [|a p IH]; intros s; simpl.
  - split; [eauto|done].
  - destruct s as [|b s].
    + split; [done|]. by intros [post ?].
    + rewrite andb_true_iff, bool_decide_eq_true, IH. split.
      * intros [-> [post ->]]. by exists post.
      * intros [post [= -> ->]]. eauto.
Qed.

Lemma contains_spec a b : contains a b = true ↔ substring a b.
Proof.
  unfold substring. induction b as [|c b IH]; simpl.
  - rewrite orb_false_r, startswith_spec. split.
    + intros [post ->]. by exists [], post.
    + intros (pre & post & H). symmetry in H.
      apply app_eq_nil in H as [-> H]. exists post. by rewrite H.
  - rewrite orb_true_iff, startswith_spec, IH. split.
    + intros [[post ->]|(pre & post & ->)]; [by exists [], post|by exists (c :: pre), post].
    + intros (pre & post & H). destruct pre as [|c' pre]; simpl in H.
      * left. eauto.
      * right. injection H as -> ->. eauto.
Qed.

Lemma heading_matches_bool target tag :
  heading_matches target tag ↔
  truthy (heading_text tag)
  && (bool_decide (target = heading_text tag) || contains target (heading_text tag)
      || contains (heading_text tag) target) = true.
Proof.
  unfold heading_matches, heading_fits.
  rewrite andb_true_iff, !orb_true_iff, bool_decide_eq_true, !contains_spec.
  destruct (heading_text tag); simpl; intuition congruence.
Qed.

Lemma heading_round_match target best tag :
  heading_matches target tag →
  heading_round target best tag =
  match best with
  | None => Some (tag, heading_score target tag)
  | Some (_, best_score) =>
      if (heading_score target tag <? best_score)%Z
      then Some (tag, heading_score target tag) else best
  end.
Proof.
  rewrite heading_matches_bool. intros [Ht Hm]%andb_true_iff.
  unfold heading_round, heading_score. fold (heading_text tag). by rewrite Ht, Hm.
Qed.

Lemma heading_round_no_match target best tag :
  ¬ heading_matches target tag → heading_round target best tag = best.
Proof.
  rewrite heading_matches_bool. intros Hm.
  unfold heading_round. fold (heading_text tag).
  destruct (truthy (heading_text tag)); simpl in *; [|done].
  by destruct (bool_decide _ || _ || _).
Qed.

Lemma heading_matches_or_not target tag :
  heading_matches target tag ∨ ¬ heading_matches target tag.
Proof.
  rewrite heading_matches_bool. destruct (truthy _ && _); [by left|by right].
Qed.

Lemma best_so_far_round target tags best tag :
  best_so_far target tags best →
  best_so_far target (tags ++ [tag]) (heading_round target best tag).
Proof.
  intros Hinv.
  destruct (heading_matches_or_not target tag) as [Hm|Hm];
    [rewrite heading_round_match by done|rewrite heading_round_no_match by done].
  - destruct best as [[h score]|]; simpl in *.
    + destruct Hinv as (-> & pre & post & -> & Hh & Hpre & Hpost).
      destruct (heading_score target tag <? heading_score target h)%Z eqn:Hlt.
      * apply Z.ltb_lt in Hlt. split; [done|].
        exists (pre ++ h :: post), []. split; [done|]. split; [done|]. split.
        -- intros t [Ht|[->|Ht]%elem_of_cons]%elem_of_app Hmt; [|done|].
           ++ specialize (Hpre t Ht Hmt). lia.
           ++ specialize (Hpost t Ht Hmt). lia.
        -- intros t Ht. by apply elem_of_nil in Ht.
      * apply Z.ltb_ge in Hlt. split; [done|].
        exists pre, (post ++ [tag]). split; [by rewrite <- app_assoc|].
        split; [done|]. split; [done|].
        intros t [Ht| ->%list_elem_of_singleton]%elem_of_app Hmt; [by apply Hpost|done].
    + split; [done|]. exists tags, []. split; [done|]. split; [done|]. split.
      * intros t Ht Hmt. by apply Hinv in Ht.
      * intros t Ht. by apply elem_of_nil in Ht.
  - destruct best as [[h score]|]; simpl in *.
    + destruct Hinv as (-> & pre & post & -> & Hh & Hpre & Hpost). split; [done|].
      exists pre, (post ++ [tag]). split; [by rewrite <- app_assoc|].
      split; [done|]. split; [done|].
      intros t [Ht| ->%list_elem_of_singleton]%elem_of_app Hmt; [by apply Hpost|done].
    + intros t [Ht| ->%list_elem_of_singleton]%elem_of_app; [by apply Hinv|done].
Qed.

Lemma best_so_far_loop target tags :
  best_so_far target tags (foldl (heading_round target) None tags).
Proof.
  induction tags as [|tag tags IH] using rev_ind.
  - simpl. intros t Ht. by apply elem_of_nil in Ht.
  - rewrite foldl_snoc. by apply best_so_far_round.
Qed.

(** C3, as the code has it.  For every list of headings and every target,
    the heading matcher returns none exactly when no heading with some text
    matches (its normalized text equal to the target, or one inside the
    other); else it returns a matching heading such that every matching
    heading before it has a strictly greater score and every matching
    heading after it a score at least as great: the earliest of those of
    least [abs(len(text) - len(target))].  A heading whose normalized text
    is empty is never a candidate. *)
Theorem heading_matcher (target : str) (tags : list Located) :
  (best_heading target tags = None ↔ ∀ t, t ∈ tags → ¬ heading_matches target t) ∧
  (∀ h, best_heading target tags = Some h →
        ∃ pre post, tags = pre ++ h :: post ∧ heading_matches target h ∧
          (∀ t, t ∈ pre → heading_matches target t →
                (heading_score target h < heading_score target t)%Z) ∧
          (∀ t, t ∈ post → heading_matches target t →
                (heading_score target h ≤ heading_score target t)%Z)) ∧
  (∀ soup label, find_specialization_heading soup label
                 = best_heading (normalize_text label) (find_all [h2; h3; h4] soup)).
Proof.
  pose proof (best_so_far_loop target tags) as Hinv. unfold best_heading.
  destruct (foldl (heading_round target) None tags) as [[h score]|]; simpl in *.
  - destruct Hinv as (-> & pre & post & -> & Hh & Hpre & Hpost).
    split; [|split; [|done]].
    + split; [done|]. intros Hnone. exfalso. apply (Hnone h); [|done].
      apply elem_of_app. right. left.
    + intros h' [= <-]. by exists pre, post.
  - split; [done|]. split; [|done]. by intros h' [=].
Qed.

(** C3 at the example of the specification: the target "Computer Science"
    finds "Major in Computer Science", a substring match. *)
Lemma heading_matcher_witness :
  ∃ pre post,
    sample_headings = pre ++ Loc (element "h2" "Major in Computer Science") [] :: post ∧
    heading_matches (normalize_text (py "Computer Science"))
                    (Loc (element "h2" "Major in Computer Science") []).
Proof.
  destruct (heading_matcher (normalize_text (py "Computer Science")) sample_headings)
    as (_ & Hsome & _).
  destruct (Hsome (Loc (element "h2" "Major in Computer Science") []) eq_refl)
    as (pre & post & Hsplit & Hm & _).
  by exists pre, post.
Defined.

(** C3 as stated fails: the empty string is inside every target, so the
    empty heading fits the match rule of the specification, and yet the
    matcher returns nothing for it. *)
Lemma empty_heading_unmatched :
  ¬ (∀ (target : str) (tags : list Located),
       (∃ t, t ∈ tags ∧ heading_fits target t) ↔ is_Some (best_heading target tags)).
Proof.
  intros H.
  destruct (H (normalize_text (py "Computer Science")) [empty_heading]) as [Hfit _].
  destruct Hfit as [h Hh]; [|by vm_compute in Hh].
  exists empty_heading. split; [left|]. right. right.
  exists [], (normalize_text (py "Computer Science")). reflexivity.
Qed.

(** ** The whole-page fallback *)

(** No round of the fallback walk ends it: a heading is stepped over like
    any other tag, and the walk ends only where the chain does. *)
Lemma fallback_never_breaks i n st :
  (∀ j, j ∈ visited st → j < i) → is_Some (fallback_body i n st).
Proof.
  intros Hv. unfold fallback_body.
  rewrite bool_decide_eq_false_2 by (intros Hi; apply Hv in Hi; lia).
  by destruct (negb (is_tag n)).
Qed.

(** When the page has no specialization heading and the start of the walk
    is found, the fallback gives exactly one record, named after the [h1],
    else after the title, else "Program". *)
Lemma fallback_single_record urlparse_path soup url siblings :
  extract_specializations_with_headings urlparse_path soup url = [] →
  fallback_start soup = Ok siblings →
  extract_specializations_raw urlparse_path soup url
  = Ok [ {| program_url := url;
            faculty := get_faculty_from_url urlparse_path url;
            specialization_name := fallback_name soup;
            years_raw := fallback_years siblings |} ].
Proof.
  intros Hnone Hstart. unfold extract_specializations_raw. rewrite Hnone. simpl.
  unfold extract_single_specialization_fallback. by rewrite Hstart.
Qed.

Lemma fallback_plain_page urlparse_path url :
  ∃ r, extract_specializations_raw urlparse_path sample_plain_page url = Ok [r] ∧
       specialization_name r = py "Bachelor of Arts" ∧
       years_raw r = [ {| year_label := py "First Year";
                          raw_lines := [py "120 credits required"] |} ].
Proof.
  eexists. split; [|split].
  - apply fallback_single_record; reflexivity.
  - reflexivity.
  - reflexivity.
Qed.

(** C6 at the failing page: it has no heading at all, hence no
    specialization heading, no [h1], and a [body] without content; taking
    the first element of the empty [contents] raises, so the page gives no
    record where the claim promises one named after the title. *)
Theorem fallback_empty_body (urlparse_path : str → str) (url : str) :
  find_all [h2; h3; h4] sample_empty_page = [] ∧
  extract_specializations_with_headings urlparse_path sample_empty_page url = [] ∧
  fallback_name sample_empty_page = py "Bachelor of Arts" ∧
  extract_specializations_raw urlparse_path sample_empty_page url = Raise IndexError.
Proof. repeat split. Qed.

(** ** Course headings *)

Section BacktrackingFacts.
Context {R : Type}.

(** A piece that succeeds has split the text into what it matched and the
    rest on which the continuation succeeded. *)
Lemma re_star_some p taken s (k : str → str → option R) r :
  re_star p taken s k = Some r →
  ∃ m rest, s = m ++ rest ∧ Forall (λ c, p c = true) m ∧ k (rev taken ++ m) rest = Some r.
Proof.
  revert taken.
  assert (∀ taken rest, k (rev taken) rest = Some r →
            ∃ m rest', rest = m ++ rest' ∧ Forall (λ c, p c = true) m
                       ∧ k (rev taken ++ m) rest' = Some r) as Hstop.
  { intros taken rest H. exists [], rest. rewrite app_nil_r. by repeat split. }
  induction s as [|c s IH]; intros taken; simpl; [apply Hstop|].
  destruct (p c) eqn:Hc; [|apply Hstop].
  destruct (re_star p (c :: taken) s k) as [r'|] eqn:Hin; [|apply Hstop].
  intros [= ->]. apply IH in Hin as (m & rest & -> & Hm & Hk).
  exists (c :: m), rest. split; [done|]. split; [by constructor|].
  simpl in Hk. by rewrite <- app_assoc in Hk.
Qed.

Lemma re_plus_some p s (k : str → str → option R) r :
  re_plus p s k = Some r →
  ∃ c m rest, s = c :: m ++ rest ∧ p c = true ∧ k (c :: m) rest = Some r.
Proof.
  destruct s as [|c s]; simpl; [done|]. destruct (p c) eqn:Hc; [|done].
  intros (m & rest & -> & _ & Hk)%re_star_some. by exists c, m, rest.
Qed.

Lemma re_opt_class_some p s (k : str → str → option R) r :
  re_opt_class p s k = Some r → ∃ m rest, s = m ++ rest ∧ k m rest = Some r.
Proof.
  unfold re_opt_class. destruct s as [|c s].
  - intros H. by exists [], [].
  - destruct (p c).
    + destruct (k [c] s) as [r'|] eqn:Hk.
      * intros [= ->]. by exists [c], s.
      * intros H. by exists [], (c :: s).
    + intros H. by exists [], (c :: s).
Qed.

Lemma re_opt_group_some lit s (k : option str → str → option R) r :
  re_opt_group lit s k = Some r → ∃ g rest, s = default [] g ++ rest ∧ k g rest = Some r.
Proof.
  unfold re_opt_group. destruct (startswith lit s) eqn:Hs.
  - apply startswith_spec in Hs as [post ->].
    rewrite drop_app_length. destruct (k (Some lit) post) as [r'|] eqn:Hk.
    + intros [= ->]. by exists (Some lit), post.
    + intros H. by exists None, (lit ++ post).
  - intros H. by exists None, s.
Qed.

Lemma re_char_some ch s (k : str → option R) r :
  re_char ch s k = Some r → ∃ rest, s = ch :: rest ∧ k rest = Some r.
Proof.
  destruct s as [|c s]; simpl; [done|]. case_bool_decide; [|done].
  subst. intros H. by exists s.
Qed.
End BacktrackingFacts.

(** A heading that the course pattern accepts has a digit, and the number
    that it captures is not empty. *)
Lemma course_heading_match_number text g :
  course_heading_match text = Some g →
  g_number g ≠ [] ∧ ∃ c, c ∈ text ∧ isdigit c = true.
Proof.
  unfold course_heading_match.
  intros (c1 & m1 & s1 & -> & _ & H)%re_plus_some.
  apply re_opt_group_some in H as (campus & s2 & -> & H).
  apply re_plus_some in H as (c3 & m3 & s3 & -> & _ & H).
  apply re_plus_some in H as (d & ds & s4 & -> & Hd & H).
  apply re_opt_class_some in H as (letter & s5 & -> & H).
  apply re_plus_some in H as (c6 & m6 & s6 & -> & _ & H).
  apply re_char_some in H as (s7 & -> & H).
  apply re_plus_some in H as (c8 & m8 & s8 & -> & _ & H).
  apply re_char_some in H as (s9 & -> & H).
  apply re_plus_some in H as (c10 & m10 & s10 & -> & _ & H).
  apply re_star_some in H as (title & rest & -> & _ & [= <-]).
  simpl. split; [done|]. exists d. split; [|done].
  apply elem_of_cons. right. rewrite !elem_of_app. right. right.
  apply elem_of_cons. right. rewrite elem_of_app. right. left.
Qed.

Lemma elem_of_rev (c : ascii) (l : str) : c ∈ rev l → c ∈ l.
Proof. rewrite !list_elem_of_In. apply in_rev. Qed.

Lemma split_ws_aux_chars cur s w c :
  w ∈ split_ws_aux cur s → c ∈ w → c ∈ cur ∨ c ∈ s.
Proof.
  revert cur. induction s as [|a s IH]; intros cur; simpl.
  - destruct cur as [|b cur]; [by intros ?%elem_of_nil|].
    intros ->%list_elem_of_singleton Hc. left. by apply elem_of_rev in Hc.
  - destruct (isspace a).
    + destruct cur as [|b cur].
      * intros Hw Hc. destruct (IH [] Hw Hc) as [?%elem_of_nil|?]; [done|]. right. by right.
      * intros [->|Hw]%elem_of_cons Hc.
        -- left. by apply elem_of_rev in Hc.
        -- destruct (IH [] Hw Hc) as [?%elem_of_nil|?]; [done|]. right. by right.
    + intros Hw Hc. destruct (IH (a :: cur) Hw Hc) as [[->|?]%elem_of_cons|?].
      * right. left.
      * by left.
      * right. by right.
Qed.

Lemma join_chars sep parts c :
  c ∈ join sep parts → c ∈ sep ∨ ∃ w, w ∈ parts ∧ c ∈ w.
Proof.
  induction parts as [|p parts IH]; simpl; [by intros ?%elem_of_nil|].
  destruct parts as [|q parts].
  - intros Hc. right. exists p. split; [left|done].
  - rewrite !elem_of_app. intros [Hc|[Hc|Hc]].
    + right. exists p. split; [left|done].
    + by left.
    + destruct (IH Hc) as [?|(w & Hw & Hcw)]; [by left|].
      right. exists w. split; [by right|done].
Qed.

(** Collapsing the white space of a heading neither adds nor moves a
    digit. *)
Lemma normalized_digit h3_text c :
  c ∈ join [space] (split_ws h3_text) → isdigit c = true → c ∈ h3_text.
Proof.
  intros [Hc|(w & Hw & Hc)]%join_chars Hd.
  - apply list_elem_of_singleton in Hc as ->. done.
  - destruct (split_ws_aux_chars [] h3_text w c Hw Hc) as [?%elem_of_nil|?]; done.
Qed.

Lemma parse_course_heading_number h3_text number :
  meta_number (parse_course_heading h3_text) = Some number →
  truthy number = true ∧ existsb isdigit h3_text = true.
Proof.
  unfold parse_course_heading.
  destruct (course_heading_match _) as [g|] eqn:Hm; simpl; [|done].
  intros [= <-]. apply course_heading_match_number in Hm as [Hn (c & Hc & Hd)].
  split; [by destruct (g_number g)|].
  apply existsb_exists. exists c. split; [|done].
  apply list_elem_of_In. by apply normalized_digit.
Qed.

Lemma elem_of_concat {A : Type} (x : A) (ls : list (list A)) :
  x ∈ concat ls ↔ ∃ l, x ∈ l ∧ l ∈ ls.
Proof.
  rewrite list_elem_of_In, in_concat. split.
  - intros (l & Hl & Hx). exists l. by rewrite !list_elem_of_In.
  - intros (l & Hx & Hl). exists l. by rewrite <- !list_elem_of_In.
Qed.

(** One round of [parse_subject_page] appends the course of the heading
    exactly when its number is present. *)
Lemma subject_round_spec heading :
  subject_round heading =
  match course_number (extract_course_block heading) with
  | Some _ => [extract_course_block heading]
  | None => []
  end.
Proof.
  unfold subject_round.
  destruct (course_number (extract_course_block heading)) as [number|] eqn:Hn.
  - apply parse_course_heading_number in Hn as [Ht Hd]. simpl. by rewrite Hd, Ht.
  - by destruct (negb _).
Qed.

(** C8. When the course pattern does not match the heading text, the parse
    does not fail: it returns the record whose subject, campus suffix,
    number and credits are null and whose title is the heading text (with
    its white space collapsed, as the pattern was tried on it).  A course is
    appended to the output of a subject page if and only if its number is
    present after parsing: the output holds exactly the courses of the [h3]
    headings whose number is not null, hence none for a heading that the
    pattern does not match. *)
Theorem course_heading_fallback (soup : Node) (heading : Located) (h3_text : str) :
  (course_heading_match (join [space] (split_ws h3_text)) = None →
   parse_course_heading h3_text
   = {| meta_subject := None; meta_campus_suffix := None; meta_number := None;
        meta_credits := None; meta_title := join [space] (split_ws h3_text) |}) ∧
  (∀ c, c ∈ parse_subject_page soup ↔
        ∃ h, h ∈ find_all [h3] soup ∧ c = extract_course_block h ∧ course_number c ≠ None) ∧
  (subject_round heading = [extract_course_block heading] ↔
   course_number (extract_course_block heading) ≠ None) ∧
  (course_heading_match (join [space] (split_ws (get_text (node heading)))) = None →
   course_number (extract_course_block heading) = None ∧ subject_round heading = []).
Proof.
  split; [|split; [|split]].
  - intros Hm. unfold parse_course_heading. by rewrite Hm.
  - intros c. unfold parse_subject_page. rewrite elem_of_concat. split.
    + intros (l & Hc & Hl). apply list_elem_of_In, in_map_iff in Hl as (h & <- & Hh).
      apply list_elem_of_In in Hh. rewrite subject_round_spec in Hc.
      exists h. destruct (course_number (extract_course_block h)) eqn:Hn;
        [|by apply elem_of_nil in Hc].
      apply list_elem_of_singleton in Hc as ->. by rewrite Hn.
    + intros (h & Hh & -> & Hn). exists (subject_round h). split.
      * rewrite subject_round_spec. destruct (course_number _); [left|done].
      * apply list_elem_of_In, in_map, list_elem_of_In, Hh.
  - rewrite subject_round_spec. by destruct (course_number _).
  - intros Hm. rewrite subject_round_spec. unfold extract_course_block. simpl.
    unfold parse_course_heading. by rewrite Hm.
Qed.

(** C8 at two headings: "Topics for 2024" holds a digit and is not a course
    heading, so it gives null fields and no course; the CPSC heading gives
    its course. *)
Lemma course_heading_fallback_witness :
  parse_course_heading (py "Topics for 2024")
  = {| meta_subject := None; meta_campus_suffix := None; meta_number := None;
       meta_credits := None; meta_title := py "Topics for 2024" |} ∧
  subject_round sample_topic = [] ∧
  subject_round sample_course = [extract_course_block sample_course].
Proof.
  destruct (course_heading_fallback (Tag [] []) sample_topic (py "Topics for 2024"))
    as (Hparse & _ & _ & Hdrop).
  destruct (course_heading_fallback (Tag [] []) sample_course [])
    as (_ & _ & Hkeep & _).
  split; [by apply Hparse|]. split; [by apply Hdrop|].
  apply Hkeep. discriminate.
Defined.

(** ** The pipeline around the oracle *)

Section PipelineFacts.
Variable OPENAI_API_KEY : str.
Variable fetch : nat → JSON → result str.
Variable api_post : nat → JSON → result str.
Variable parse_html : str → Node.
Variable json_loads : str → result JSON.

Abbreviation call_oracle := (call_openai_parse_requirements OPENAI_API_KEY api_post json_loads).
Abbreviation parse_with_ai := (ai_parse OPENAI_API_KEY api_post json_loads).
Abbreviation process :=
  (process_specialization OPENAI_API_KEY fetch api_post parse_html json_loads).
Abbreviation batch := (main_loop OPENAI_API_KEY fetch api_post parse_html json_loads).

(** The ways the oracle fails all raise inside the [try] block: a call that
    raises, an answer that is not JSON, and JSON that is not a dictionary. *)
Lemma oracle_failures i spec raw_lines :
  (∀ e, call_oracle i spec raw_lines = Raise e → parse_with_ai i spec raw_lines = Raise e) ∧
  (∀ parsed, call_oracle i spec raw_lines = Ok parsed →
             (∀ fields, parsed ≠ JObj fields) →
             parse_with_ai i spec raw_lines = Raise AttributeError) ∧
  (OPENAI_API_KEY = [] → call_oracle i spec raw_lines = Raise RuntimeError) ∧
  (∀ e, (∀ payload, api_post i payload = Raise e) → OPENAI_API_KEY ≠ [] →
        call_oracle i spec raw_lines = Raise e) ∧
  (∀ e, (∀ text, json_loads text = Raise e) → OPENAI_API_KEY ≠ [] →
        ∃ e', call_oracle i spec raw_lines = Raise e').
Proof.
  split; [|split; [|split; [|split]]].
  - intros e H. unfold ai_parse. by rewrite H.
  - intros parsed H Hobj. unfold ai_parse. rewrite H. simpl.
    destruct parsed; try done. by destruct (Hobj fields).
  - intros ->. done.
  - intros e Hpost Hkey. unfold call_openai_parse_requirements.
    destruct OPENAI_API_KEY; [done|]. simpl. by rewrite Hpost.
  - intros e Hjson Hkey. unfold call_openai_parse_requirements.
    destruct OPENAI_API_KEY; [done|]. simpl.
    destruct (api_post i _) as [body|e']; simpl; [|by exists e'].
    rewrite Hjson. by exists e.
Qed.

(** A failing oracle costs one record its structured requirements only. *)
Lemma process_recovers i spec url name html heading e :
  spec !! k_program_url = Some url →
  spec !! k_specialization_name = Some (JStr name) →
  fetch i url = Ok html →
  find_specialization_heading (parse_html html) name = Some heading →
  parse_with_ai i (<[k_requirements_raw :=
                       JArr (JStr <$> extract_requirement_lines_from_block heading)]> spec)
                (extract_requirement_lines_from_block heading) = Raise e →
  ∃ spec', process i spec = Ok spec' ∧
    spec' !! k_requirements_parsed = Some JNull ∧
    spec' !! k_requirements_raw
    = Some (JArr (JStr <$> extract_requirement_lines_from_block heading)) ∧
    ∀ k, k ≠ k_requirements_parsed → k ≠ k_requirements_raw → spec' !! k = spec !! k.
Proof.
  intros Hurl Hname Hfetch Hhead Hai.
  exists (<[k_requirements_parsed := JNull]>
            (<[k_requirements_raw :=
                 JArr (JStr <$> extract_requirement_lines_from_block heading)]> spec)).
  split; [|split; [|split]].
  - unfold process_specialization. rewrite Hurl, Hname. simpl.
    rewrite Hfetch, Hhead, Hai. unfold USE_AI. cbn [andb].
    by destruct (truthy_list _).
  - apply lookup_insert_eq.
  - rewrite lookup_insert_ne by done. apply lookup_insert_eq.
  - intros k Hp Hr. by rewrite !lookup_insert_ne.
Qed.

(** Whatever the page fetch and the oracle do, a well-formed record is
    processed to a record: no exception leaves [process_specialization]. *)
Lemma process_total i spec :
  well_formed_spec spec → ∃ spec', process i spec = Ok spec'.
Proof.
  intros [[url Hurl] [name Hname]].
  unfold process_specialization. rewrite Hurl, Hname. simpl.
  destruct (fetch i url); [|by eexists].
  destruct (find_specialization_heading _ name); [|by eexists].
  unfold USE_AI. cbn [andb]. destruct (truthy_list _); [|by eexists].
  destruct (ai_parse _ _ _ _ _ _); by eexists.
Qed.

(** The batch goes through every well-formed record, in order, whatever
    fails on the way. *)
Lemma main_loop_total i specs :
  Forall well_formed_spec specs →
  ∃ out, batch i specs = Ok out ∧ length out = length specs ∧
    ∀ j spec, specs !! j = Some spec →
      ∃ updated, out !! j = Some updated ∧ process (i + j) spec = Ok updated.
Proof.
  intros Hwf. revert i. induction Hwf as [|spec specs Hspec _ IH]; intros i.
  - exists []. repeat split. intros j spec Hj. by rewrite lookup_nil in Hj.
  - destruct (process_total i spec Hspec) as [updated Hup].
    destruct (IH (S i)) as (out & Hout & Hlen & Hall).
    exists (updated :: out). simpl. rewrite Hup. simpl. rewrite Hout. simpl.
    split; [done|]. split; [by rewrite Hlen|].
    intros [|j] spec'; simpl.
    + intros [= <-]. exists updated. by rewrite Nat.add_0_r.
    + intros Hj. destruct (Hall j spec' Hj) as (updated' & Hj' & Hp).
      exists updated'. split; [done|]. by replace (i + S j) with (S i + j) by lia.
Qed.

(** The [try] block in terms of the answer of the oracle: it raises exactly
    at the outcomes of [oracle_fails], and otherwise gives the member
    [requirements] of the answer. *)
Lemma ai_parse_outcome i spec raw_lines :
  parse_with_ai i spec raw_lines =
  match call_oracle i spec raw_lines with
  | Raise e => Raise e
  | Ok (JObj fields) =>
      match py_len (requirements_member fields) with
      | Ok _ => Ok (requirements_member fields)
      | Raise e => Raise e
      end
  | Ok _ => Raise AttributeError
  end.
Proof.
  unfold ai_parse. destruct (call_oracle i spec raw_lines) as [parsed|e]; [|done].
  destruct parsed; try done; simpl; fold (requirements_member fields);
    by destruct (py_len (requirements_member fields)).
Qed.

Lemma ai_parse_raises i spec raw_lines :
  oracle_fails (call_oracle i spec raw_lines) ↔
  ∃ e, parse_with_ai i spec raw_lines = Raise e.
Proof.
  rewrite ai_parse_outcome. unfold oracle_fails.
  destruct (call_oracle i spec raw_lines) as [parsed|e].
  - destruct parsed; try (split; [by eexists|done]).
    destruct (py_len (requirements_member fields)) as [n|e].
    + split; [by intros [e ?]|by intros [e ?]].
    + split; by eexists.
  - split; [by eexists|done].
Qed.

(** A record whose page is fetched and whose heading is found: what
    [process_specialization] returns. *)
Lemma process_found i spec url name html heading :
  spec !! k_program_url = Some url →
  spec !! k_specialization_name = Some (JStr name) →
  fetch i url = Ok html →
  find_specialization_heading (parse_html html) name = Some heading →
  let raw_lines := extract_requirement_lines_from_block heading in
  let with_raw := <[k_requirements_raw := JArr (JStr <$> raw_lines)]> spec in
  process i spec =
  Ok (<[k_requirements_parsed :=
          if truthy_list raw_lines
          then match parse_with_ai i with_raw raw_lines with
               | Ok requirements => requirements
               | Raise _ => JNull
               end
          else JNull]> with_raw).
Proof.
  intros Hurl Hname Hfetch Hhead raw_lines with_raw.
  unfold process_specialization. rewrite Hurl, Hname. simpl.
  rewrite Hfetch, Hhead. fold raw_lines. fold with_raw.
  unfold USE_AI. cbn [andb]. destruct (truthy_list raw_lines); [|done].
  by destruct (ai_parse _ _ _ _ _ _).
Qed.
End PipelineFacts.

(** C9. A record whose page is fetched and whose heading is found is always
    emitted, with its raw requirement lines and its other fields as they
    were, and the batch goes on: the output holds one record for every
    record of the input.  When the [try] block around the oracle raises
    (the call raises, the body or the content is not JSON, the answer is
    not a JSON object, or its member [requirements] has no length) the
    structured requirements of the record are null.  An answer that is a
    JSON object is not checked any further: its member [requirements] is
    stored as it is when it has a length, the empty list when the member is
    absent. *)
Theorem oracle_failure_recovers
    (OPENAI_API_KEY : str) (fetch api_post : nat → JSON → result str)
    (parse_html : str → Node) (json_loads : str → result JSON)
    (first : nat) (specs : list (gmap str JSON)) (j : nat) (spec : gmap str JSON)
    (url : JSON) (name html : str) (heading : Located) :
  let raw_lines := extract_requirement_lines_from_block heading in
  let answer :=
    call_openai_parse_requirements OPENAI_API_KEY api_post json_loads (first + j)
      (<[k_requirements_raw := JArr (JStr <$> raw_lines)]> spec) raw_lines in
  Forall well_formed_spec specs →
  specs !! j = Some spec →
  spec !! k_program_url = Some url →
  spec !! k_specialization_name = Some (JStr name) →
  fetch (first + j) url = Ok html →
  find_specialization_heading (parse_html html) name = Some heading →
  ∃ out updated,
    main_loop OPENAI_API_KEY fetch api_post parse_html json_loads first specs = Ok out ∧
    length out = length specs ∧
    out !! j = Some updated ∧
    updated !! k_requirements_raw = Some (JArr (JStr <$> raw_lines)) ∧
    (∀ k, k ≠ k_requirements_parsed → k ≠ k_requirements_raw →
          updated !! k = spec !! k) ∧
    (oracle_fails answer → updated !! k_requirements_parsed = Some JNull) ∧
    (∀ fields n, answer = Ok (JObj fields) →
                 py_len (requirements_member fields) = Ok n → raw_lines ≠ [] →
                 updated !! k_requirements_parsed = Some (requirements_member fields)).
Proof.
  intros raw_lines answer Hwf Hj Hurl Hname Hfetch Hhead.
  destruct (main_loop_total OPENAI_API_KEY fetch api_post parse_html json_loads
              first specs Hwf) as (out & Hout & Hlen & Hall).
  destruct (Hall j spec Hj) as (updated & Hup & Hproc).
  rewrite (process_found OPENAI_API_KEY fetch api_post parse_html json_loads
             (first + j) spec url name html heading Hurl Hname Hfetch Hhead) in Hproc.
  fold raw_lines in Hproc. injection Hproc as <-.
  exists out. eexists. split; [done|]. split; [done|]. split; [done|].
  split; [by rewrite lookup_insert_ne, lookup_insert_eq|].
  split; [intros k Hp Hr; by rewrite !lookup_insert_ne|].
  rewrite lookup_insert_eq. split.
  - intros Hfail. destruct (truthy_list raw_lines); [|done].
    apply ai_parse_raises in Hfail as [e Hfail]. fold raw_lines answer in Hfail.
    by rewrite Hfail.
  - intros fields n Hanswer Hlen' Hlines.
    destruct raw_lines as [|l ls] eqn:Hraw; [done|]. cbn [truthy_list].
    rewrite ai_parse_outcome. fold answer. by rewrite Hanswer, Hlen'.
Qed.

(** C9 at a batch of two records for which every call to the oracle
    raises: both come out, with their raw line and no structured
    requirements. *)
Lemma oracle_failure_recovers_witness :
  ∃ out updated,
    main_loop (py "key") (λ _ _, Ok []) (λ _ _, Raise RequestError)
              (λ _, sample_program_page) (λ _, Raise JSONDecodeError)
              1 [sample_spec; sample_spec] = Ok out ∧
    length out = 2 ∧
    out !! 1 = Some updated ∧
    updated !! k_requirements_parsed = Some JNull ∧
    updated !! k_requirements_raw = Some (JArr [JStr (py "Take MATH 100")]).
Proof.
  destruct (oracle_failure_recovers (py "key") (λ _ _, Ok []) (λ _ _, Raise RequestError)
              (λ _, sample_program_page) (λ _, Raise JSONDecodeError)
              1 [sample_spec; sample_spec] 1 sample_spec
              (JStr (py "https://example.org/cs")) (py "Computer Science") []
              (Loc (element "h2" "Major in Computer Science")
                   [element "p" "Take MATH 100"]))
    as (out & updated & Hout & Hlen & Hj & Hraw & _ & Hparsed & _).
  - repeat constructor; try (by eexists); by exists (py "Computer Science").
  - reflexivity.
  - reflexivity.
  - reflexivity.
  - reflexivity.
  - reflexivity.
  - exists out, updated. split; [done|]. split; [done|]. split; [done|].
    split; [by apply Hparsed|done].
Defined.

(** C9 as stated fails: the content of the answer is valid JSON of the
    wrong shape (its [requirements] is the string [oops], not a list), no
    exception is raised, and the string is stored as the structured
    requirements of the record instead of null. *)
Lemma malformed_answer_stored :
  ¬ (∀ (json_loads : str → result JSON) (answer : JSON) (updated : gmap str JSON),
       (∀ i spec raw_lines,
          call_openai_parse_requirements (py "key") (λ _ _, Ok (py "body")) json_loads
            i spec raw_lines = Ok answer) →
       ¬ contract_answer answer →
       process_specialization (py "key") (λ _ _, Ok []) (λ _ _, Ok (py "body"))
         (λ _, sample_program_page) json_loads 1 sample_spec = Ok updated →
       updated !! k_requirements_parsed = Some JNull).
Proof.
  intros H.
  specialize (H sample_json_loads sample_malformed_answer
                (<[k_requirements_parsed := JStr (py "oops")]>
                   (<[k_requirements_raw := JArr [JStr (py "Take MATH 100")]]>
                      sample_spec))).
  rewrite lookup_insert_eq in H. discriminate H.
  - intros i spec raw_lines. reflexivity.
  - intros (fields & items & [= <-] & Hmember). discriminate Hmember.
  - reflexivity.
Qed.

(** * Further properties of the scrapers *)

(** ** White space and case *)

Section WhitespaceFacts.

Ltac by_cases_on c :=
  destruct c as [[] [] [] [] [] [] [] []]; vm_compute; try reflexivity; try discriminate.

Lemma isAZ_lower_char c : isAZ (lower_char c) = false.
Proof. by_cases_on c. Qed.

Lemma ends_ws_cons c s : s ≠ [] → ends_ws (c :: s) = ends_ws s.
Proof. by destruct s. Qed.

Lemma ends_ws_rstrip s : ends_ws (rstrip s) = false.
Proof.
  induction s as [|c s IH]; simpl; [done|].
  destruct (rstrip s) as [|d r] eqn:Hr.
  - destruct (isspace c) eqn:Hc; simpl; [done|]. by rewrite Hc.
  - by rewrite ends_ws_cons.
Qed.

Lemma ends_ws_lower s : ends_ws (lower s) = ends_ws s.
Proof.
  induction s as [|c s IH]; simpl; [done|]. destruct s as [|d s].
  - simpl. apply isspace_lower_char.
  - exact IH.
Qed.

Lemma starts_ws_lower s : starts_ws (lower s) = starts_ws s.
Proof. destruct s; simpl; [done|]. apply isspace_lower_char. Qed.

Lemma rstrip_fixed s : ends_ws s = false → rstrip s = s.
Proof.
  induction s as [|c s IH]; simpl; [done|]. destruct s as [|d s].
  - simpl. by intros ->.
  - intros H. rewrite IH by done. done.
Qed.

Lemma strip_fixed s : starts_ws s = false → ends_ws s = false → strip s = s.
Proof. intros H1 H2. unfold strip. rewrite lstrip_fixed by done. by apply rstrip_fixed. Qed.

Lemma single_spaced_chars b s c :
  single_spaced b s = true → c ∈ s → isspace c = true → c = space.
Proof.
  revert b. induction s as [|d s IH]; intros b; simpl; [by intros _ ?%elem_of_nil|].
  destruct (isspace d) eqn:Hd.
  - intros [[Hsp _]%andb_prop Hs]%andb_prop [->|Hc]%elem_of_cons Hws.
    + by apply bool_decide_eq_true in Hsp.
    + by apply (IH true).
  - intros Hs [->|Hc]%elem_of_cons Hws; [congruence|]. by apply (IH false).
Qed.

(** [s.split()] does not see how much white space there is, nor white space
    at the ends. *)
Lemma split_ws_sub_ws b cur s :
  (b = true → cur = []) → split_ws_aux cur (sub_ws b s) = split_ws_aux cur s.
Proof.
  revert b cur. induction s as [|c s IH]; intros b cur Hb; simpl; [done|].
  destruct (isspace c) eqn:Hc.
  - destruct b.
    + rewrite (Hb eq_refl). by apply IH.
    + simpl. replace (isspace space) with true by reflexivity.
      destruct cur; by rewrite (IH true []).
  - simpl. rewrite Hc. by apply IH.
Qed.

Lemma split_ws_lstrip s : split_ws_aux [] (lstrip s) = split_ws_aux [] s.
Proof.
  induction s as [|c s IH]; simpl; [done|].
  destruct (isspace c) eqn:Hc; [done|]. simpl. by rewrite Hc.
Qed.

Lemma split_ws_aux_cons cur c s :
  split_ws_aux cur (c :: s) =
  if isspace c
  then match cur with
       | [] => split_ws_aux [] s
       | _ => rev cur :: split_ws_aux [] s
       end
  else split_ws_aux (c :: cur) s.
Proof. done. Qed.

Lemma split_ws_rstrip cur s : split_ws_aux cur (rstrip s) = split_ws_aux cur s.
Proof.
  revert cur. induction s as [|c s IH]; intros cur; [done|].
  cbn [rstrip]. destruct (rstrip s) as [|d r] eqn:Hr.
  - destruct (isspace c) eqn:Hc; simpl; rewrite Hc.
    + destruct cur; by rewrite <- IH.
    + by rewrite <- IH.
  - rewrite !(split_ws_aux_cons _ c). by rewrite !IH.
Qed.

Lemma join_cons_cons sep (x y : str) l :
  join sep (x :: y :: l) = x ++ sep ++ join sep (y :: l).
Proof. done. Qed.

(** Splitting a string that is trimmed and single-spaced and joining the
    words again gives the string back. *)
Lemma join_split_fixed cur s :
  single_spaced false s = true → ends_ws s = false →
  (cur = [] → starts_ws s = false) →
  join [space] (split_ws_aux cur s) = rev cur ++ s.
Proof.
  revert cur. induction s as [|c s IH]; intros cur Hs He Hst.
  { simpl. destruct cur as [|a cur]; [done|]. by rewrite app_nil_r. }
  rewrite split_ws_aux_cons. simpl in Hs. destruct (isspace c) eqn:Hc.
  - apply andb_prop in Hs as [[Hsp _]%andb_prop Hs]. apply bool_decide_eq_true in Hsp as ->.
    destruct cur as [|a cur]; [by specialize (Hst eq_refl); simpl in Hst; congruence|].
    destruct s as [|d s]; [simpl in He; congruence|].
    assert (isspace d = false) as Hd.
    { simpl in Hs. destruct (isspace d); [|done]. by rewrite andb_false_r in Hs. }
    specialize (IH [] (single_spaced_weaken _ Hs) He (λ _, Hd)).
    change (rev [] ++ d :: s) with (d :: s) in IH.
    destruct (split_ws_aux [] (d :: s)) as [|w ws] eqn:Hw; [done|].
    rewrite join_cons_cons, IH. done.
  - rewrite IH; [simpl; by rewrite <- app_assoc| done | by destruct s | done].
Qed.

Lemma normalized_shape s :
  single_spaced false (strip (sub_ws false s)) = true ∧
  starts_ws (strip (sub_ws false s)) = false ∧
  ends_ws (strip (sub_ws false s)) = false.
Proof.
  split; [apply strip_single_spaced, sub_ws_single_spaced|]. split.
  - apply starts_ws_rstrip, starts_ws_lstrip.
  - apply ends_ws_rstrip.
Qed.

(** [" ".join(s.split())] is [re.sub(r"\s+", " ", s).strip()]. *)
Lemma join_split_normalizes s :
  join [space] (split_ws s) = strip (re_sub_ws s).
Proof.
  unfold split_ws, re_sub_ws.
  rewrite <- (split_ws_sub_ws false [] s) by done.
  rewrite <- split_ws_lstrip, <- split_ws_rstrip.
  fold (strip (sub_ws false s)).
  destruct (normalized_shape s) as (Hs & Hst & He).
  by rewrite join_split_fixed.
Qed.

End WhitespaceFacts.

(** X1. The result of [normalize_text] is in normal form: it has no upper
    case letter A to Z, its only white space is the single space, it neither
    starts nor ends with white space and has no two spaces in a row, so that
    each of the three steps of the function leaves it as it is. *)
Theorem normalize_text_shape (s : str) :
  let t := normalize_text s in
  (∀ c, c ∈ t → isAZ c = false ∧ (isspace c = true → c = space)) ∧
  starts_ws t = false ∧ ends_ws t = false ∧ single_spaced false t = true ∧
  strip t = t ∧ re_sub_ws t = t ∧ lower t = t.
Proof.
  intros t. destruct (normalized_shape s) as (Hs & Hst & He).
  assert (re_sub_ws t = t) as Hsub.
  { unfold t, normalize_text, re_sub_ws. rewrite sub_ws_lower. f_equal.
    by apply sub_ws_fixed. }
  assert (starts_ws t = false) as Hst' by (unfold t, normalize_text; by rewrite starts_ws_lower).
  assert (ends_ws t = false) as He' by (unfold t, normalize_text; by rewrite ends_ws_lower).
  assert (single_spaced false t = true) as Hs'.
  { rewrite <- Hsub. apply sub_ws_single_spaced. }
  split; [|repeat split; try done].
  - intros c Hc. split.
    + unfold t, normalize_text, lower in Hc.
      apply list_elem_of_In, in_map_iff in Hc as (d & <- & _). apply isAZ_lower_char.
    + by apply (single_spaced_chars false t).
  - by apply strip_fixed.
  - apply lower_idem.
Qed.

(** X2. [normalize_text] does not see the case of the letters nor how much
    white space separates the words: lower-casing the input first, or
    collapsing its white space first, or trimming it first, changes
    nothing; and it is the lower-cased [" ".join(s.split())] with which
    [parse_course_heading] prepares a heading. *)
Theorem normalize_text_insensitive (s : str) :
  normalize_text (lower s) = normalize_text s ∧
  normalize_text (re_sub_ws s) = normalize_text s ∧
  normalize_text (strip s) = normalize_text s ∧
  normalize_text s = lower (join [space] (split_ws s)).
Proof.
  assert (∀ u, normalize_text u = lower (join [space] (split_ws u))) as Hjoin.
  { intros u. by rewrite join_split_normalizes. }
  split; [|split; [|split; [|done]]].
  - unfold normalize_text, re_sub_ws. by rewrite sub_ws_lower, strip_lower, lower_idem.
  - rewrite !Hjoin. unfold split_ws, re_sub_ws. by rewrite split_ws_sub_ws.
  - rewrite !Hjoin. unfold split_ws, strip. by rewrite split_ws_rstrip, split_ws_lstrip.
Qed.

(** ** The section classifier *)

Lemma ends_ws_snoc s c : ends_ws (s ++ [c]) = isspace c.
Proof.
  induction s as [|d s IH]; [done|].
  change ((d :: s) ++ [c]) with (d :: (s ++ [c])).
  rewrite ends_ws_cons; [done|]. by destruct s.
Qed.

Lemma re_match_anchored_stripped lit text :
  re_match_anchored lit (strip text) = true ↔ strip text = lit.
Proof.
  unfold re_match_anchored. rewrite orb_true_iff, !bool_decide_eq_true. split; [|by left].
  intros [H|H]; [done|]. pose proof (ends_ws_rstrip (lstrip text)) as He.
  fold (strip text) in He. rewrite H, ends_ws_snoc in He. discriminate.
Qed.

(** X3. A text is a year heading exactly when, once trimmed, it is one of
    the twelve year labels as a whole: the patterns are anchored at both
    ends and the newline that [$] tolerates cannot survive the trimming, so
    a label inside a longer text does not count; white space around the
    text does not matter. *)
Theorem year_heading_exact (text : str) :
  (is_year_heading text = true ↔ strip text ∈ year_patterns) ∧
  is_year_heading (strip text) = is_year_heading text.
Proof.
  split.
  - unfold is_year_heading. rewrite existsb_exists. split.
    + intros (p & Hp & Hm). apply re_match_anchored_stripped in Hm as ->.
      by apply list_elem_of_In.
    + intros Hin. exists (strip text). split; [by apply list_elem_of_In|].
      by apply re_match_anchored_stripped.
  - unfold is_year_heading. by rewrite strip_idem.
Qed.

Lemma year_heading_cases text :
  is_year_heading text = true → strip text ∈ year_patterns.
Proof.
  unfold is_year_heading. rewrite existsb_exists.
  intros (p & Hp & Hm). apply re_match_anchored_stripped in Hm as ->.
  by apply list_elem_of_In.
Qed.

(** X4. No year heading is a specialization heading, so a year heading
    never ends the walk of a specialization: whatever its tag, the walk
    opens the year group and goes on. *)
Theorem year_heading_not_specialization (n : Node) (j : nat) (st : WalkState) :
  is_tag n = true →
  is_year_heading (get_text n) = true →
  is_specialization_heading (get_text n) = false ∧
  section_body j n st = Some (open_year (get_text n) st).
Proof.
  intros Htag Hyear.
  assert (is_specialization_heading (get_text n) = false) as Hspec.
  { apply year_heading_cases in Hyear. unfold is_specialization_heading, year_patterns in *.
    repeat (apply elem_of_cons in Hyear as [->|Hyear]); try (by vm_compute).
    by apply elem_of_nil in Hyear. }
  split; [done|]. unfold section_body, year_step.
  by rewrite Hspec, andb_false_r, Htag, Hyear.
Qed.

(** X4 at the sample year heading. *)
Lemma year_heading_not_specialization_witness :
  is_specialization_heading (get_text sample_year) = false ∧
  section_body 0 sample_year walk_start
  = Some (open_year (get_text sample_year) walk_start).
Proof. apply (year_heading_not_specialization sample_year 0 walk_start); reflexivity. Defined.

(** ** More on the heading matcher *)

Lemma substring_same_length a b : substring a b → length a = length b → a = b.
Proof.
  intros (pre & post & ->). rewrite !length_app. intros Hlen.
  destruct pre; [|simpl in Hlen; lia]. destruct post; [|simpl in Hlen; lia].
  by rewrite app_nil_r.
Qed.

Lemma heading_score_zero target h :
  heading_matches target h → heading_score target h = 0%Z → heading_text h = target.
Proof.
  unfold heading_score. intros [_ Hfit] Hz.
  assert (length (heading_text h) = length target) as Hlen by lia.
  destruct Hfit as [->|[Hsub|Hsub]]; [done| |].
  - symmetry. by apply substring_same_length.
  - by apply substring_same_length.
Qed.

Lemma heading_score_exact target h : heading_text h = target → heading_score target h = 0%Z.
Proof. unfold heading_score. intros ->. lia. Qed.

Lemma heading_score_nonneg target h : (0 ≤ heading_score target h)%Z.
Proof. unfold heading_score. lia. Qed.

(** What the matcher returns, read off the state of its loop. *)
Lemma best_heading_cases target tags :
  match best_heading target tags with
  | None => ∀ t, t ∈ tags → ¬ heading_matches target t
  | Some h =>
      ∃ pre post, tags = pre ++ h :: post ∧ heading_matches target h ∧
        (∀ t, t ∈ pre → heading_matches target t →
              (heading_score target h < heading_score target t)%Z) ∧
        (∀ t, t ∈ post → heading_matches target t →
              (heading_score target h ≤ heading_score target t)%Z)
  end.
Proof.
  pose proof (best_so_far_loop target tags) as Hinv. unfold best_heading.
  destruct (foldl (heading_round target) None tags) as [[h score]|]; simpl in *; [|done].
  by destruct Hinv as [_ Hinv].
Qed.

(** X5. When some heading of the page has exactly the target as its
    normalized text, the matcher returns the first such heading: a heading
    that only contains the target, or is contained in it, never wins over
    an exact one. *)
Theorem heading_matcher_exact (target : str) (tags : list Located) (t : Located) :
  t ∈ tags → heading_text t = target → target ≠ [] →
  ∃ pre h post, tags = pre ++ h :: post ∧ best_heading target tags = Some h ∧
    heading_text h = target ∧ ∀ u, u ∈ pre → heading_text u ≠ target.
Proof.
  intros Ht Htext Hne.
  assert (∀ u, heading_text u = target → heading_matches target u) as Hexact.
  { intros u Hu. split; [by rewrite Hu|]. by left. }
  pose proof (best_heading_cases target tags) as Hcases.
  destruct (best_heading target tags) as [h|]; [|by destruct (Hcases t Ht); apply Hexact].
  destruct Hcases as (pre & post & -> & Hh & Hpre & Hpost).
  assert (heading_score target h = 0%Z) as Hzero.
  { pose proof (heading_score_nonneg target h).
    apply elem_of_app in Ht as [Ht|[->|Ht]%elem_of_cons].
    - specialize (Hpre t Ht (Hexact t Htext)).
      rewrite (heading_score_exact target t Htext) in Hpre. lia.
    - by apply heading_score_exact.
    - specialize (Hpost t Ht (Hexact t Htext)).
      rewrite (heading_score_exact target t Htext) in Hpost. lia. }
  exists pre, h, post. split; [done|]. split; [done|].
  split; [by apply heading_score_zero|].
  intros u Hu Htu. specialize (Hpre u Hu (Hexact u Htu)).
  rewrite (heading_score_exact target u Htu) in Hpre. lia.
Qed.

(** X5 at the sample page with an exact heading added after the longer
    one: the exact one is returned. *)
Lemma heading_matcher_exact_witness :
  ∃ h, best_heading (py "computer science")
         (sample_headings ++ [Loc (element "h3" "Computer Science") []]) = Some h ∧
       heading_text h = py "computer science".
Proof.
  destruct (heading_matcher_exact (py "computer science")
              (sample_headings ++ [Loc (element "h3" "Computer Science") []])
              (Loc (element "h3" "Computer Science") []))
    as (pre & h & post & _ & Hbest & Htext & _).
  - apply elem_of_app. right. left.
  - reflexivity.
  - discriminate.
  - by exists h.
Defined.

(** X6. The heading that [find_specialization_heading] returns is an
    element of the page named [h2], [h3] or [h4] whose normalized text is
    not empty and matches the normalized name; on a page without such an
    element it returns nothing. *)
Theorem found_heading_is_heading (soup : Node) (name : str) :
  (∀ h, find_specialization_heading soup name = Some h →
        h ∈ descendants soup ∧ name_in [h2; h3; h4] (node h) = true ∧
        heading_text h ≠ [] ∧ heading_fits (normalize_text name) h) ∧
  (find_all [h2; h3; h4] soup = [] → find_specialization_heading soup name = None).
Proof.
  unfold find_specialization_heading. split.
  - intros h Hh.
    pose proof (best_heading_cases (normalize_text name) (find_all [h2; h3; h4] soup)) as Hc.
    rewrite Hh in Hc. destruct Hc as (pre & post & Hsplit & [Htext Hfit] & _).
    assert (h ∈ find_all [h2; h3; h4] soup) as Hin.
    { rewrite Hsplit. apply elem_of_app. right. left. }
    unfold find_all in Hin. apply list_elem_of_filter in Hin as [Hname Hin]. done.
  - by intros ->.
Qed.

(** X6 at the sample program page. *)
Lemma found_heading_is_heading_witness :
  ∃ h, find_specialization_heading sample_program_page (py "Computer Science") = Some h ∧
       name_in [h2; h3; h4] (node h) = true ∧ heading_text h ≠ [].
Proof.
  exists (Loc (element "h2" "Major in Computer Science") [element "p" "Take MATH 100"]).
  split; [reflexivity|].
  destruct (found_heading_is_heading sample_program_page (py "Computer Science"))
    as [Hfound _].
  destruct (Hfound (Loc (element "h2" "Major in Computer Science")
                        [element "p" "Take MATH 100"]) eq_refl)
    as (_ & Hname & Htext & _).
  by split.
Defined.

(** X7. An empty specialization name (or one of white space only) matches
    every heading that has text, whatever it says: the matcher then returns
    the first heading of shortest normalized text. *)
Theorem empty_name_matches_all (name : str) (tags : list Located) (t : Located) :
  normalize_text name = [] → t ∈ tags → heading_text t ≠ [] →
  ∃ pre h post, tags = pre ++ h :: post ∧
    best_heading (normalize_text name) tags = Some h ∧ heading_text h ≠ [] ∧
    (∀ u, u ∈ tags → heading_text u ≠ [] →
          length (heading_text h) ≤ length (heading_text u)) ∧
    (∀ u, u ∈ pre → heading_text u ≠ [] →
          length (heading_text h) < length (heading_text u)).
Proof.
  intros -> Ht Htext.
  assert (∀ u, heading_text u ≠ [] → heading_matches [] u) as Hall.
  { intros u Hu. split; [done|]. right. left. by exists [], (heading_text u). }
  assert (∀ u, heading_score [] u = Z.of_nat (length (heading_text u))) as Hscore.
  { intros u. unfold heading_score. simpl. lia. }
  pose proof (best_heading_cases [] tags) as Hcases.
  destruct (best_heading [] tags) as [h|]; [|by destruct (Hcases t Ht); apply Hall].
  destruct Hcases as (pre & post & -> & [Hh _] & Hpre & Hpost).
  exists pre, h, post. split; [done|]. split; [done|]. split; [done|]. split.
  - intros u [Hu|[->|Hu]%elem_of_cons]%elem_of_app Hut; [|done|].
    + specialize (Hpre u Hu (Hall u Hut)). rewrite !Hscore in Hpre. lia.
    + specialize (Hpost u Hu (Hall u Hut)). rewrite !Hscore in Hpost. lia.
  - intros u Hu Hut. specialize (Hpre u Hu (Hall u Hut)). rewrite !Hscore in Hpre. lia.
Qed.

(** X7 at the sample headings: the blank name finds "Minor in Statistics",
    the shorter of the two. *)
Lemma empty_name_matches_all_witness :
  ∃ h, best_heading (normalize_text (py "   ")) sample_headings = Some h ∧
       heading_text h = py "minor in statistics".
Proof.
  destruct (empty_name_matches_all (py "   ") sample_headings
              (Loc (element "h3" "Minor in Statistics") []))
    as (pre & h & post & _ & Hbest & _).
  - reflexivity.
  - right. left.
  - discriminate.
  - exists h. split; [exact Hbest|].
    assert (Some h = Some (Loc (element "h3" "Minor in Statistics") [])) as [= ->]
      by (by rewrite <- Hbest).
    reflexivity.
Defined.

(** ** More on the block segmenter *)

Lemma keep_first_NoDup_id l : NoDup l → keep_first l = l.
Proof.
  induction 1 as [|x l Hx Hl IH]; simpl; [done|]. rewrite IH. f_equal.
  clear -Hx. induction l as [|y l IH]; [done|].
  apply not_elem_of_cons in Hx as [Hxy Hx].
  rewrite filter_cons_True by done. by rewrite IH.
Qed.

Lemma filter_all {A} (P : A → Prop) `{∀ x, Decision (P x)} (l : list A) :
  (∀ x, x ∈ l → P x) → filter P l = l.
Proof.
  induction l as [|x l IH]; intros Hall; [done|].
  rewrite filter_cons_True by (apply Hall; left). rewrite IH; [done|].
  intros y Hy. apply Hall. by right.
Qed.

Lemma fmap_strip_fixed (l : list str) : (∀ x, x ∈ l → strip x = x) → strip <$> l = l.
Proof.
  induction l as [|x l IH]; intros Hall; [done|].
  rewrite fmap_cons, Hall by left. rewrite IH; [done|]. intros y Hy. apply Hall. by right.
Qed.

Lemma clean_lines_elem lines l :
  l ∈ clean_lines lines → strip l = l ∧ 3 ≤ length l.
Proof.
  rewrite clean_lines_spec, keep_first_elem, list_elem_of_filter.
  intros [Hlen (raw & -> & _)%list_elem_of_fmap]. split; [apply strip_idem|done].
Qed.

(** X8. The clean-up of the collected lines is idempotent, never makes the
    list longer, and does not see white space around a line: cleaning
    lines that were trimmed before gives the same result. *)
Theorem clean_lines_idempotent (lines : list str) :
  clean_lines (clean_lines lines) = clean_lines lines ∧
  length (clean_lines lines) ≤ length lines ∧
  clean_lines (strip <$> lines) = clean_lines lines.
Proof.
  split; [|split].
  - rewrite (clean_lines_spec (clean_lines lines)).
    rewrite fmap_strip_fixed by (intros x Hx; by apply clean_lines_elem in Hx as [? ?]).
    rewrite filter_all by (intros x Hx; by apply clean_lines_elem in Hx as [? ?]).
    apply keep_first_NoDup_id. rewrite clean_lines_spec. apply keep_first_NoDup.
  - rewrite clean_lines_spec.
    etrans; [apply sublist_length, keep_first_sublist|].
    etrans; [apply length_filter|]. by rewrite length_fmap.
  - rewrite !clean_lines_spec. do 2 f_equal.
    rewrite <- list_fmap_compose. apply list_fmap_ext. intros i x _. apply strip_idem.
Qed.

Lemma block_body_index i j n lines : block_body i n lines = block_body j n lines.
Proof. done. Qed.

(** X9. In [extract_requirement_lines_from_block] a sibling that is a text
    node (not empty), or a tag other than [p], [div], [ul], [ol], [table] and
    the three heading levels, is stepped over: it gives no line and the
    walk goes on, whatever it contains.  A list item or a [span] that stands
    directly among the siblings is lost this way. *)
Theorem block_skips_other_nodes (pre post : list Node) (n : Node) :
  node_truthy n = true →
  name_in [py "p"; py "div"; py "ul"; py "ol"; py "table"; h2; h3; h4] n = false →
  collect_lines (pre ++ n :: post) = collect_lines (pre ++ post) ∧
  ∀ start, extract_requirement_lines_from_block (Loc start (pre ++ n :: post))
           = extract_requirement_lines_from_block (Loc start (pre ++ post)).
Proof.
  intros Ht Hname.
  assert (collect_lines (pre ++ n :: post) = collect_lines (pre ++ post)) as Hskip.
  { unfold collect_lines. apply loop_app_skip; [apply block_body_index|done|].
    intros j lines. unfold block_body. destruct n as [t|name cs]; [done|].
    simpl in Hname. apply bool_decide_eq_false in Hname.
    assert (∀ names, names ⊆ [py "p"; py "div"; py "ul"; py "ol"; py "table"; h2; h3; h4] →
                     name_in names (Tag name cs) = false) as Hnot.
    { intros names Hsub. simpl. apply bool_decide_eq_false. intros Hin. by apply Hname, Hsub. }
    simpl negb. cbv iota. unfold is_block_terminator, node_lines, paragraph_lines,
      list_lines, table_lines.
    rewrite !Hnot by (intros x; rewrite !elem_of_cons, !elem_of_nil; tauto).
    by rewrite app_nil_r. }
  split; [done|]. intros start. unfold extract_requirement_lines_from_block. simpl.
  by rewrite Hskip.
Qed.

(** X9 at a chain with a stray list item and a text node. *)
Lemma block_skips_other_nodes_witness :
  collect_lines ([sample_line] ++ element "li" "CPSC 110" :: [sample_short])
  = collect_lines ([sample_line] ++ [sample_short]) ∧
  collect_lines ([] ++ NavigableString (py "loose text") :: [sample_line])
  = collect_lines ([] ++ [sample_line]).
Proof.
  split.
  - apply (block_skips_other_nodes [sample_line] [sample_short] (element "li" "CPSC 110"));
      reflexivity.
  - apply (block_skips_other_nodes [] [sample_line] (NavigableString (py "loose text")));
      reflexivity.
Defined.

Lemma loop_app_falsy {A} (body : nat → Node → A → option A) i pre n post a :
  node_truthy n = false → loop body i (pre ++ n :: post) a = loop body i pre a.
Proof.
  intros Hn. revert i a. induction pre as [|m pre IH]; intros i a; simpl.
  - by rewrite Hn.
  - destruct (negb (node_truthy m)); [done|]. destruct (body i m a); [apply IH|done].
Qed.

(** X10. The loops test [while node:], and an empty text node is false: in
    each of the three walks an empty text node among the siblings ends the
    walk as the end of the chain does, and what follows it is not read. *)
Theorem empty_text_node_ends_walk (pre post : list Node) (n : Node) :
  node_truthy n = false →
  n = NavigableString [] ∧
  collect_lines (pre ++ n :: post) = collect_lines pre ∧
  section_years (pre ++ n :: post) = section_years pre ∧
  fallback_years (pre ++ n :: post) = fallback_years pre.
Proof.
  intros Hn. split; [by destruct n as [[|c t]|]|].
  unfold collect_lines, section_years, fallback_years.
  by rewrite !loop_app_falsy.
Qed.

(** X10 at a chain cut by an empty text node. *)
Lemma empty_text_node_ends_walk_witness :
  section_years ([sample_year] ++ NavigableString [] :: [sample_line]) = [] ∧
  collect_lines ([sample_line] ++ NavigableString [] :: [sample_short])
  = [py "line1"].
Proof.
  destruct (empty_text_node_ends_walk [sample_year] [sample_line] (NavigableString []) eq_refl)
    as (_ & _ & Hsec & _).
  destruct (empty_text_node_ends_walk [sample_line] [sample_short] (NavigableString []) eq_refl)
    as (_ & Hblock & _).
  split; [by rewrite Hsec|by rewrite Hblock].
Defined.

(** ** More on the year-grouped walks *)

Lemma plain_body_index i j n st : plain_body i n st = plain_body j n st.
Proof. done. Qed.

Lemma year_step_other n st :
  name_in [py "p"; py "div"; py "li"] n = false →
  is_year_heading (get_text n) = false →
  year_step n st = st.
Proof.
  intros Hname Hyear. unfold year_step, collect_entry. rewrite Hyear, Hname.
  by destruct (current_year st).
Qed.

(** X11. In the year-grouped walks a sibling that is neither a [p], [div]
    or [li] nor a year heading gives nothing and does not stop the walk: a
    text node, and also a [ul], [ol] or [table], whose items and rows are
    never read since the walk stays among the siblings.  (In the walk of a
    specialization this holds for what is not the next specialization
    heading.) *)
Theorem year_walks_skip (pre post : list Node) (n : Node) :
  node_truthy n = true →
  name_in [py "p"; py "div"; py "li"] n = false →
  (is_tag n = true → is_year_heading (get_text n) = false) →
  fallback_years (pre ++ n :: post) = fallback_years (pre ++ post) ∧
  (name_in [h3; h4] n && is_specialization_heading (get_text n) = false →
   section_years (pre ++ n :: post) = section_years (pre ++ post)).
Proof.
  intros Ht Hname Hyear.
  assert (∀ st, (if negb (is_tag n) then Some st else Some (year_step n st)) = Some st) as Hstep.
  { intros st. destruct (is_tag n) eqn:Htag; simpl; [|done].
    by rewrite year_step_other by auto. }
  split.
  - rewrite !fallback_years_plain. f_equal.
    apply loop_app_skip; [apply plain_body_index|done|]. intros j st. apply Hstep.
  - intros Hspec. unfold section_years. f_equal.
    apply loop_app_skip; [apply section_body_index|done|].
    intros j st. unfold section_body. rewrite Hspec. apply Hstep.
Qed.

(** X11 at a chain with a bullet list under the year heading: the list
    gives no line. *)
Lemma year_walks_skip_witness :
  section_years ([sample_year] ++ Tag (py "ul") [element "li" "CPSC 110"] :: [sample_line])
  = [ {| year_label := py "First Year"; raw_lines := [py "line1"] |} ].
Proof.
  destruct (year_walks_skip [sample_year] [sample_line]
              (Tag (py "ul") [element "li" "CPSC 110"])) as [_ Hsec];
    [reflexivity|reflexivity|reflexivity|].
  rewrite Hsec; reflexivity.
Defined.

Lemma flushed_sourced siblings st b l :
  sourced siblings st → b ∈ flushed st → l ∈ raw_lines b → line_from siblings l.
Proof.
  intros [Hy Hc]. unfold flushed.
  destruct (current_year st) as [y|]; [|apply Hy].
  destruct (truthy_list (current_entries st)); [|apply Hy].
  rewrite elem_of_app, list_elem_of_singleton. intros [Hb| ->]; [by apply Hy|].
  simpl. apply Hc.
Qed.

Lemma year_step_sourced siblings n st :
  n ∈ siblings → sourced siblings st → sourced siblings (year_step n st).
Proof.
  intros Hn Hs. unfold year_step. destruct (is_year_heading (get_text n)) eqn:Hyear.
  - split; simpl.
    + intros b l. by apply flushed_sourced.
    + destruct Hs as [_ Hc]. destruct (current_year st); [|done].
      destruct (truthy_list (current_entries st)); [|done].
      intros l Hl. by apply elem_of_nil in Hl.
  - unfold collect_entry. destruct (current_year st); [|done].
    destruct (name_in _ n) eqn:Hname; [|done].
    destruct (truthy (strip (get_text n))); [|done].
    destruct Hs as [Hy Hc]. split; simpl; [done|].
    intros l. rewrite elem_of_app, list_elem_of_singleton. intros [Hl| ->]; [by apply Hc|].
    by exists n.
Qed.

Lemma walk_start_sourced siblings : sourced siblings walk_start.
Proof.
  split; simpl.
  - intros b l Hb. by apply elem_of_nil in Hb.
  - intros l Hl. by apply elem_of_nil in Hl.
Qed.

(** X12. Every raw line of a year group, in the walk of a specialization
    and in the fallback, is the trimmed text of a [p], [div] or [li] that
    stands directly among the siblings walked and is not itself a year
    heading: no line comes from a heading, a list, a table or a text
    node. *)
Theorem year_lines_sources (siblings : list Node) (b : YearBlock) (l : str) :
  b ∈ section_years siblings ∨ b ∈ fallback_years siblings →
  l ∈ raw_lines b →
  ∃ m, m ∈ siblings ∧ name_in [py "p"; py "div"; py "li"] m = true ∧
       is_year_heading (get_text m) = false ∧ l = strip (get_text m).
Proof.
  intros [Hb|Hb] Hl.
  - revert Hb Hl. apply flushed_sourced, loop_invariant; [apply walk_start_sourced|].
    intros j n a a' Hn Ha. unfold section_body.
    destruct (name_in [h3; h4] n && _); [done|].
    destruct (negb (is_tag n)); intros [= <-]; [done|]. by apply year_step_sourced.
  - rewrite fallback_years_plain in Hb. revert Hb Hl.
    apply flushed_sourced, loop_invariant; [apply walk_start_sourced|].
    intros j n a a' Hn Ha. unfold plain_body.
    destruct (negb (is_tag n)); intros [= <-]; [done|]. by apply year_step_sourced.
Qed.

(** X12 at the sample chain. *)
Lemma year_lines_sources_witness :
  ∃ m, m ∈ [sample_year; sample_line] ∧ py "line1" = strip (get_text m).
Proof.
  destruct (year_lines_sources [sample_year; sample_line]
              {| year_label := py "First Year"; raw_lines := [py "line1"] |} (py "line1"))
    as (m & Hm & _ & _ & Hl).
  - left. apply list_elem_of_singleton. reflexivity.
  - left.
  - by exists m.
Defined.

Lemma flushed_labels st :
  map year_label (flushed st) `sublist_of` map year_label (years st) ++ open_label st.
Proof.
  unfold flushed, open_label. destruct (current_year st) as [y|].
  - destruct (truthy_list (current_entries st)).
    + by rewrite map_app.
    + apply sublist_inserts_r. done.
  - by rewrite app_nil_r.
Qed.

Lemma year_labels_of_cons n rest :
  year_labels_of (n :: rest) =
  (if is_tag n && is_year_heading (get_text n) then [get_text n] else [])
  ++ year_labels_of rest.
Proof.
  unfold year_labels_of. rewrite filter_cons.
  destruct (is_tag n && is_year_heading (get_text n)); done.
Qed.

(** The labels of the groups found stand in the order of the year headings
    met, after those already closed and the one that is open. *)
Lemma labels_in_order (body : nat → Node → WalkState → option WalkState) i siblings st :
  (∀ j n a a', body j n a = Some a' → a' = if is_tag n then year_step n a else a) →
  map year_label (flushed (loop body i siblings st))
  `sublist_of` map year_label (years st) ++ open_label st ++ year_labels_of siblings.
Proof.
  intros Hbody. revert i st. induction siblings as [|n rest IH]; intros i st.
  { simpl. rewrite app_nil_r. apply flushed_labels. }
  assert (map year_label (flushed st)
          `sublist_of` map year_label (years st) ++ open_label st
                       ++ year_labels_of (n :: rest)) as Hstop.
  { rewrite app_assoc. apply sublist_inserts_r, flushed_labels. }
  simpl. destruct (negb (node_truthy n)); [done|].
  destruct (body i n st) as [st'|] eqn:Hb; [|done].
  apply Hbody in Hb as ->. etrans; [apply IH|]. rewrite year_labels_of_cons.
  destruct (is_tag n) eqn:Htag; simpl; [|done].
  unfold year_step. destruct (is_year_heading (get_text n)) eqn:Hyear; simpl.
  - unfold open_label at 1. simpl. rewrite (app_assoc _ (open_label st)).
    apply sublist_app; [apply flushed_labels|done].
  - assert (years (collect_entry n (get_text n) st) = years st
            ∧ open_label (collect_entry n (get_text n) st) = open_label st) as [-> ->]; [|done].
    unfold collect_entry, open_label. destruct (current_year st) eqn:Hcur; [|by rewrite Hcur].
    destruct (name_in _ n); [|by rewrite Hcur].
    destruct (truthy _); simpl; by rewrite ?Hcur.
Qed.

(** X13. The year groups come out in document order: their labels, in the
    order of the output, are the texts of year headings of the chain in
    the order in which they stand there (a year heading without lines under
    it gives no group). *)
Theorem year_groups_in_order (siblings : list Node) :
  map year_label (section_years siblings) `sublist_of` year_labels_of siblings ∧
  map year_label (fallback_years siblings) `sublist_of` year_labels_of siblings ∧
  length (section_years siblings) ≤ length (year_labels_of siblings) ∧
  length (fallback_years siblings) ≤ length (year_labels_of siblings).
Proof.
  assert (map year_label (section_years siblings) `sublist_of` year_labels_of siblings) as Hs.
  { apply (labels_in_order section_body 0 siblings walk_start).
    intros j n a a'. unfold section_body. destruct (name_in [h3; h4] n && _); [done|].
    destruct (is_tag n); simpl; by intros [= <-]. }
  assert (map year_label (fallback_years siblings) `sublist_of` year_labels_of siblings) as Hf.
  { rewrite fallback_years_plain.
    apply (labels_in_order plain_body 0 siblings walk_start).
    intros j n a a'. unfold plain_body. destruct (is_tag n); simpl; by intros [= <-]. }
  split; [done|]. split; [done|]. split.
  - apply sublist_length in Hs. by rewrite length_map in Hs.
  - apply sublist_length in Hf. by rewrite length_map in Hf.
Qed.

Lemma loop_ext_in {A} (body1 body2 : nat → Node → A → option A) i siblings a :
  (∀ j n a, n ∈ siblings → body1 j n a = body2 j n a) →
  loop body1 i siblings a = loop body2 i siblings a.
Proof.
  revert i a. induction siblings as [|n rest IH]; intros i a Hext; simpl; [done|].
  destruct (negb (node_truthy n)); [done|].
  rewrite Hext by left. destruct (body2 i n a); [|done].
  apply IH. intros j m b Hm. apply Hext. by right.
Qed.

(** X14. On a chain without specialization heading of level [h3] or [h4]
    the walk of a specialization and the whole-page fallback find the same
    year groups: the two walks differ only in where they stop. *)
Theorem walks_agree (siblings : list Node) :
  (∀ n, n ∈ siblings →
        name_in [h3; h4] n && is_specialization_heading (get_text n) = false) →
  section_years siblings = fallback_years siblings.
Proof.
  intros Hnone. rewrite fallback_years_plain. unfold section_years. f_equal.
  apply loop_ext_in. intros j n a Hn. unfold section_body, plain_body.
  by rewrite (Hnone n Hn).
Qed.

(** X14 at the sample chain. *)
Lemma walks_agree_witness :
  section_years [sample_year; sample_notes; sample_line]
  = fallback_years [sample_year; sample_notes; sample_line].
Proof.
  apply walks_agree. intros n Hn.
  repeat (apply elem_of_cons in Hn as [->|Hn]); try reflexivity.
  by apply elem_of_nil in Hn.
Defined.

(** ** The faculty of a program URL *)

Lemma split_char_aux_word ch cur w rest :
  ch ∉ w → split_char_aux ch cur (w ++ rest) = split_char_aux ch (rev w ++ cur) rest.
Proof.
  revert cur. induction w as [|c w IH]; intros cur Hw; [done|].
  apply not_elem_of_cons in Hw as [Hc Hw]. cbn [app split_char_aux].
  rewrite bool_decide_false by done. rewrite IH by done.
  simpl. by rewrite <- app_assoc.
Qed.

(** Splitting at a character undoes joining with it, when no piece holds
    the character. *)
Lemma split_char_join ch p parts :
  Forall (λ p, ch ∉ p) (p :: parts) →
  split_char ch (join [ch] (p :: parts)) = p :: parts.
Proof.
  unfold split_char. revert p. induction parts as [|q l IH]; intros p Hparts.
  - apply Forall_cons in Hparts as [Hp _].
    cbn [join]. rewrite <- (app_nil_r p) at 1. rewrite split_char_aux_word by done.
    simpl. by rewrite app_nil_r, rev_involutive.
  - apply Forall_cons in Hparts as [Hp Hrest].
    rewrite join_cons_cons. rewrite split_char_aux_word by done.
    cbn [app split_char_aux]. rewrite bool_decide_true by done.
    rewrite IH by done. by rewrite app_nil_r, rev_involutive.
Qed.

Lemma lstrip_char_replicate ch a s :
  lstrip_char ch (replicate a ch ++ s) = lstrip_char ch s.
Proof. induction a as [|a IH]; simpl; [done|]. by rewrite bool_decide_true. Qed.

Lemma rev_replicate (ch : ascii) a : rev (replicate a ch) = replicate a ch.
Proof.
  induction a as [|a IH]; [done|]. simpl. rewrite IH.
  clear IH. induction a as [|a IH]; [done|]. simpl. by rewrite IH.
Qed.

(** A joined path of non-empty pieces without the separator neither starts
    nor ends with it. *)
Lemma join_ends ch p parts :
  Forall (λ p, p ≠ [] ∧ ch ∉ p) (p :: parts) →
  ∃ c s c' s', join [ch] (p :: parts) = c :: s ∧ join [ch] (p :: parts) = s' ++ [c'] ∧
               c ≠ ch ∧ c' ≠ ch.
Proof.
  revert p. induction parts as [|q l IH]; intros p Hparts.
  - apply Forall_cons in Hparts as [[Hne Hp] _]. cbn [join].
    destruct (exists_last Hne) as (s' & c' & Hlast). destruct p as [|c s]; [done|].
    exists c, s, c', s'. split; [done|]. split; [done|]. split.
    + intros ->. apply Hp. left.
    + intros ->. apply Hp. rewrite Hlast. apply elem_of_app. right. left.
  - apply Forall_cons in Hparts as [[Hne Hp] Hrest]. rewrite join_cons_cons.
    destruct (IH q Hrest) as (_ & _ & c' & s' & _ & Hlast & _ & Hc').
    destruct p as [|c s]; [done|].
    exists c, (s ++ [ch] ++ join [ch] (q :: l)), c', ((c :: s) ++ [ch] ++ s').
    split; [done|]. split; [rewrite <- !app_assoc; by do 2 f_equal|]. split; [|done].
    intros ->. apply Hp. left.
Qed.

Lemma strip_char_path ch a b p parts :
  Forall (λ p, p ≠ [] ∧ ch ∉ p) (p :: parts) →
  strip_char ch (replicate a ch ++ join [ch] (p :: parts) ++ replicate b ch)
  = join [ch] (p :: parts).
Proof.
  intros Hparts. destruct (join_ends ch p parts Hparts) as (c & s & c' & s' & Hfirst & Hlast & Hc & Hc').
  unfold strip_char. rewrite lstrip_char_replicate.
  rewrite Hfirst at 1. cbn [app lstrip_char]. rewrite bool_decide_false by done.
  change (c :: s ++ replicate b ch) with ((c :: s) ++ replicate b ch).
  rewrite <- Hfirst, rev_app_distr, rev_replicate, lstrip_char_replicate.
  rewrite Hlast at 1. rewrite rev_app_distr. cbn [rev app lstrip_char].
  rewrite bool_decide_false by done.
  change (c' :: rev s') with (rev [c'] ++ rev s').
  by rewrite <- rev_app_distr, <- Hlast, rev_involutive.
Qed.

Lemma segment_after_absent marker parts :
  marker ∉ parts → segment_after marker parts = [].
Proof.
  induction parts as [|p rest IH]; [done|]. intros [Hp Hrest]%not_elem_of_cons.
  simpl. rewrite bool_decide_false by done. by apply IH.
Qed.

Lemma segment_after_first marker pre rest :
  marker ∉ pre →
  segment_after marker (pre ++ marker :: rest) = match rest with q :: _ => q | [] => [] end.
Proof.
  induction pre as [|p pre IH]; simpl.
  - intros _. by rewrite bool_decide_true.
  - intros [Hp Hpre]%not_elem_of_cons. rewrite bool_decide_false by done. by apply IH.
Qed.

(** X16. [get_faculty_from_url] on a URL whose path is made of non-empty
    segments, with any number of slashes before and after: the faculty is
    the segment that follows the first occurrence of the marker
    [faculties-colleges-and-schools]; it is the empty string when the
    marker is not a segment of the path, and also when the marker is the
    last segment. *)
Theorem faculty_of_url (urlparse_path : str → str) (url : str)
    (parts : list str) (a b : nat) :
  Forall (λ p, p ≠ [] ∧ "/"%char ∉ p) parts →
  urlparse_path url = replicate a "/"%char ++ join ["/"%char] parts ++ replicate b "/"%char →
  (faculty_marker ∉ parts → get_faculty_from_url urlparse_path url = []) ∧
  (∀ pre fac rest, parts = pre ++ faculty_marker :: fac :: rest → faculty_marker ∉ pre →
                   get_faculty_from_url urlparse_path url = fac) ∧
  (∀ pre, parts = pre ++ [faculty_marker] → faculty_marker ∉ pre →
          get_faculty_from_url urlparse_path url = []).
Proof.
  intros Hparts Hpath.
  assert (get_faculty_from_url urlparse_path url = segment_after faculty_marker parts) as ->.
  { unfold get_faculty_from_url. rewrite Hpath. destruct parts as [|p parts].
    - cbn [join app]. unfold strip_char. rewrite lstrip_char_replicate.
      rewrite <- (app_nil_r (replicate b _)), lstrip_char_replicate. reflexivity.
    - rewrite strip_char_path by done. rewrite split_char_join; [done|].
      eapply Forall_impl; [exact Hparts|]. by intros x [_ ?]. }
  split; [apply segment_after_absent|]. split.
  - intros pre fac rest -> Hpre. by rewrite segment_after_first.
  - intros pre -> Hpre. by rewrite segment_after_first.
Qed.

(** X16 at the path of the Arts page. *)
Lemma faculty_of_url_witness :
  get_faculty_from_url (λ u, u)
    (py "/faculties-colleges-and-schools/faculty-arts/bachelor-arts/")
  = py "faculty-arts".
Proof.
  destruct (faculty_of_url (λ u, u)
              (py "/faculties-colleges-and-schools/faculty-arts/bachelor-arts/")
              [faculty_marker; py "faculty-arts"; py "bachelor-arts"] 1 1)
    as (_ & Hfac & _).
  - repeat (constructor;
            [split; [discriminate|apply (bool_decide_unpack _); vm_compute; exact I]|]).
    constructor.
  - reflexivity.
  - apply (Hfac [] (py "faculty-arts") [py "bachelor-arts"]); [reflexivity|].
    apply not_elem_of_nil.
Defined.

(** ** The records that the pipeline emits *)

(** X17. Whatever the page fetch and the oracle do, a record that
    [process_specialization] returns has under [requirements_raw] a list of
    strings that are trimmed, at least three characters long and pairwise
    distinct, and under [requirements_parsed] either null or a value that
    has a length (a list, a dictionary or a string; never a number or a
    boolean); the structured requirements are null whenever there is no raw
    line; every other field is as it was in the input. *)
Theorem processed_record_shape
    (OPENAI_API_KEY : str) (fetch api_post : nat → JSON → result str)
    (parse_html : str → Node) (json_loads : str → result JSON)
    (i : nat) (spec spec' : gmap str JSON) :
  process_specialization OPENAI_API_KEY fetch api_post parse_html json_loads i spec
  = Ok spec' →
  (∃ lines, spec' !! k_requirements_raw = Some (JArr (JStr <$> lines)) ∧
            NoDup lines ∧ (∀ l, l ∈ lines → strip l = l ∧ 3 ≤ length l) ∧
            (lines = [] → spec' !! k_requirements_parsed = Some JNull)) ∧
  (∃ v, spec' !! k_requirements_parsed = Some v ∧ (v = JNull ∨ ∃ n, py_len v = Ok n)) ∧
  (∀ k, k ≠ k_requirements_parsed → k ≠ k_requirements_raw → spec' !! k = spec !! k).
Proof.
  assert (∀ s : gmap str JSON,
            (∃ lines, no_requirements s !! k_requirements_raw = Some (JArr (JStr <$> lines)) ∧
               NoDup lines ∧ (∀ l, l ∈ lines → strip l = l ∧ 3 ≤ length l) ∧
               (lines = [] → no_requirements s !! k_requirements_parsed = Some JNull)) ∧
            (∃ v, no_requirements s !! k_requirements_parsed = Some v ∧
                  (v = JNull ∨ ∃ n, py_len v = Ok n)) ∧
            (∀ k, k ≠ k_requirements_parsed → k ≠ k_requirements_raw →
                  no_requirements s !! k = s !! k)) as Hnone.
  { intros s. unfold no_requirements. split; [|split].
    - exists []. split; [by rewrite lookup_insert_ne, lookup_insert_eq|].
      split; [constructor|]. split; [by intros l ?%elem_of_nil|].
      intros _. apply lookup_insert_eq.
    - exists JNull. split; [apply lookup_insert_eq|by left].
    - intros k Hp Hr. by rewrite !lookup_insert_ne. }
  assert (∀ (s : gmap str JSON) heading v,
            (truthy_list (extract_requirement_lines_from_block heading) = false → v = JNull) →
            (v = JNull ∨ ∃ n, py_len v = Ok n) →
            let s' := <[k_requirements_parsed := v]>
                        (<[k_requirements_raw :=
                             JArr (JStr <$> extract_requirement_lines_from_block heading)]> s) in
            (∃ lines, s' !! k_requirements_raw = Some (JArr (JStr <$> lines)) ∧
               NoDup lines ∧ (∀ l, l ∈ lines → strip l = l ∧ 3 ≤ length l) ∧
               (lines = [] → s' !! k_requirements_parsed = Some JNull)) ∧
            (∃ v', s' !! k_requirements_parsed = Some v' ∧
                   (v' = JNull ∨ ∃ n, py_len v' = Ok n)) ∧
            (∀ k, k ≠ k_requirements_parsed → k ≠ k_requirements_raw →
                  s' !! k = s !! k)) as Hsome.
  { intros s heading v Hempty Hv s'. unfold s'. split; [|split].
    - exists (extract_requirement_lines_from_block heading).
      split; [by rewrite lookup_insert_ne, lookup_insert_eq|].
      split; [unfold extract_requirement_lines_from_block; rewrite clean_lines_spec;
              apply keep_first_NoDup|].
      split; [intros l Hl; by apply clean_lines_elem in Hl|].
      intros Hnil. rewrite lookup_insert_eq, Hempty; [done|by rewrite Hnil].
    - exists v. split; [apply lookup_insert_eq|done].
    - intros k Hp Hr. by rewrite !lookup_insert_ne. }
  unfold process_specialization.
  destruct (spec !! k_program_url) as [url|]; [|done].
  destruct (spec !! k_specialization_name) as [name|]; [|done]. simpl.
  destruct (fetch i url) as [html|e]; [|intros [= <-]; apply Hnone].
  destruct name as [| | |name| |]; try done.
  destruct (find_specialization_heading _ name) as [heading|]; [|intros [= <-]; apply Hnone].
  unfold USE_AI. cbn [andb].
  destruct (truthy_list (extract_requirement_lines_from_block heading)) eqn:Hlines.
  - destruct (ai_parse _ _ _ _ _ _) as [requirements|e] eqn:Hai.
    + intros [= <-]. apply Hsome; [by rewrite Hlines|]. right.
      unfold ai_parse in Hai.
      destruct (call_openai_parse_requirements _ _ _ _ _ _) as [parsed|]; [|done].
      simpl in Hai. destruct (dict_get _ _ _) as [r|]; [|done]. simpl in Hai.
      destruct (py_len r) as [n|] eqn:Hn; [|done]. simpl in Hai.
      injection Hai as <-. by exists n.
    + intros [= <-]. apply Hsome; [by rewrite Hlines|by left].
  - intros [= <-]. apply Hsome; [done|by left].
Qed.

(** X17 at the sample record, with the page fetched, the heading found and
    an oracle that answers: one raw line, trimmed and long enough, and
    structured requirements that have a length. *)
Lemma processed_record_shape_witness :
  ∃ lines v,
    process_specialization (py "key") (λ _ _, Ok []) (λ _ _, Ok (py "body"))
      (λ _, sample_program_page) sample_json_loads 1 sample_spec
    = Ok (<[k_requirements_parsed := v]>
            (<[k_requirements_raw := JArr (JStr <$> lines)]> sample_spec)) ∧
    lines = [py "Take MATH 100"] ∧ NoDup lines ∧
    (∀ l, l ∈ lines → strip l = l ∧ 3 ≤ length l) ∧
    (v = JNull ∨ ∃ n, py_len v = Ok n).
Proof.
  destruct (processed_record_shape (py "key") (λ _ _, Ok []) (λ _ _, Ok (py "body"))
              (λ _, sample_program_page) sample_json_loads 1 sample_spec
              (<[k_requirements_parsed := JStr (py "oops")]>
                 (<[k_requirements_raw := JArr [JStr (py "Take MATH 100")]]> sample_spec)))
    as ((lines & Hraw & Hnodup & Hall & _) & (v & Hv & Hlen) & _); [reflexivity|].
  rewrite lookup_insert_ne, lookup_insert_eq in Hraw by done.
  rewrite lookup_insert_eq in Hv. injection Hv as <-.
  destruct lines as [|l [|l' ls]]; try discriminate Hraw.
  injection Hraw as <-.
  exists [py "Take MATH 100"], (JStr (py "oops")).
  split; [reflexivity|]. split; [reflexivity|]. split; [done|]. split; done.
Defined.

(** X18. The batch has no handler around the subscripts [spec["program_url"]]
    and [spec["specialization_name"]]: when a record lacks one of the two
    keys, and the records before it are well formed, [main] ends with
    [KeyError] at that record, so that no output is produced, whatever the
    records after it are. *)
Theorem missing_key_aborts
    (OPENAI_API_KEY : str) (fetch api_post : nat → JSON → result str)
    (parse_html : str → Node) (json_loads : str → result JSON)
    (first : nat) (pre post : list (gmap str JSON)) (spec : gmap str JSON) :
  Forall well_formed_spec pre →
  spec !! k_program_url = None ∨ spec !! k_specialization_name = None →
  process_specialization OPENAI_API_KEY fetch api_post parse_html json_loads
    (first + length pre) spec = Raise KeyError ∧
  main_loop OPENAI_API_KEY fetch api_post parse_html json_loads first
    (pre ++ spec :: post) = Raise KeyError.
Proof.
  intros Hpre Hkey.
  assert (∀ i, process_specialization OPENAI_API_KEY fetch api_post parse_html
                 json_loads i spec = Raise KeyError) as Hspec.
  { intros i. unfold process_specialization.
    destruct Hkey as [-> | Hname]; [done|].
    destruct (spec !! k_program_url); [|done]. by rewrite Hname. }
  split; [apply Hspec|]. revert first.
  induction Hpre as [|s pre Hs _ IH]; intros first; simpl.
  - by rewrite Hspec.
  - destruct (process_total OPENAI_API_KEY fetch api_post parse_html json_loads
                first s Hs) as [updated ->]. simpl. by rewrite IH.
Qed.

(** X18 at a batch whose second record is empty. *)
Lemma missing_key_aborts_witness :
  main_loop (py "key") (λ _ _, Ok []) (λ _ _, Raise RequestError)
            (λ _, sample_program_page) (λ _, Raise JSONDecodeError)
            1 ([sample_spec] ++ ∅ :: [sample_spec]) = Raise KeyError.
Proof.
  apply (missing_key_aborts (py "key") (λ _ _, Ok []) (λ _ _, Raise RequestError)
           (λ _, sample_program_page) (λ _, Raise JSONDecodeError)
           1 [sample_spec] [sample_spec] ∅).
  - repeat constructor; try (by eexists); by exists (py "Computer Science").
  - left. reflexivity.
Defined.

(** ** The block of a course *)

Lemma texts_of_cons t tags :
  texts_of (t :: tags) =
  (if name_in [py "p"; py "div"; py "li"] t && truthy (get_text t)
   then [get_text t] else []) ++ texts_of tags.
Proof.
  unfold texts_of. rewrite filter_cons.
  destruct (decide (name_in _ t = true)) as [Hn|Hn].
  - rewrite Hn. cbn [map andb]. rewrite filter_cons.
    destruct (decide (truthy (get_text t) = true)) as [Ht|Ht].
    + by rewrite Ht.
    + by apply not_true_is_false in Ht as ->.
  - by apply not_true_is_false in Hn as ->.
Qed.

(** The last element that passes a test, after one more round of a loop
    that overwrites a variable at each element that passes. *)
Lemma last_filter_step {A B : Type} (P : A → bool) (f : A → B) x l d :
  or_else (f <$> last (filter (λ t, P t = true) l)) (if P x then Some (f x) else d)
  = or_else (f <$> last (filter (λ t, P t = true) (x :: l))) d.
Proof.
  rewrite filter_cons. destruct (decide (P x = true)) as [Hx|Hx].
  - rewrite Hx, last_cons. by destruct (last (filter _ l)).
  - by apply not_true_is_false in Hx as ->.
Qed.

Lemma course_walk_spec tags st :
  let texts := texts_of (before_h3 tags) in
  let st' := course_walk tags st in
  description_parts st' = description_parts st ++ texts ∧
  prereq_raw st'
  = or_else ((λ t, strip (after_first (py "Prerequisite:") t))
               <$> last (filter (λ t, contains (py "Prerequisite:") t = true) texts))
            (prereq_raw st) ∧
  coreq_raw st'
  = or_else ((λ t, strip (after_first (py "Corequisite:") t))
               <$> last (filter (λ t, contains (py "Corequisite:") t = true) texts))
            (coreq_raw st) ∧
  excl_raw st'
  = or_else (id <$> last (filter
               (λ t, contains (py "Credit will only be granted for one of") t
                     || contains (py "Credit will be granted for only one of") t = true)
               texts))
            (excl_raw st).
Proof.
  revert st. induction tags as [|t rest IH]; intros st.
  - simpl. by rewrite app_nil_r.
  - cbn [before_h3 course_walk]. destruct (name_in [h3] t) eqn:Hh3.
    + simpl. by rewrite app_nil_r.
    + cbv zeta. destruct (IH (course_body t st)) as (Hd & Hp & Hc & He).
      rewrite Hd, Hp, Hc, He. rewrite texts_of_cons. unfold course_body.
      destruct (name_in [py "p"; py "div"; py "li"] t); [|done].
      destruct (truthy (get_text t)); [|done].
      cbn [andb app description_parts prereq_raw coreq_raw excl_raw].
      split; [by rewrite <- app_assoc|].
      split; [apply (last_filter_step (contains (py "Prerequisite:"))
                       (λ t, strip (after_first (py "Prerequisite:") t)))|].
      split; [apply (last_filter_step (contains (py "Corequisite:"))
                       (λ t, strip (after_first (py "Corequisite:") t)))|].
      apply (last_filter_step
               (λ t, contains (py "Credit will only be granted for one of") t
                     || contains (py "Credit will be granted for only one of") t) id).
Qed.

(** X20. What [extract_course_block] makes of the block of a course.  Let
    the paragraphs of the block be the non-empty texts of the [p], [div]
    and [li] tags that follow the heading, up to the next [h3].  The
    description is the paragraphs joined by spaces and trimmed; the
    prerequisite is what follows the marker in the last paragraph that holds
    [Prerequisite:], trimmed, and null when no paragraph holds it; the
    corequisite likewise; the exclusion is the last paragraph that holds
    one of the two credit sentences, whole. *)
Theorem course_block_spec (heading : Located) :
  let texts := block_texts (next_siblings heading) in
  let course := extract_course_block heading in
  description course = strip (join [space] texts) ∧
  prerequisite_raw course
  = (λ t, strip (after_first (py "Prerequisite:") t))
      <$> last (filter (λ t, contains (py "Prerequisite:") t = true) texts) ∧
  corequisite_raw course
  = (λ t, strip (after_first (py "Corequisite:") t))
      <$> last (filter (λ t, contains (py "Corequisite:") t = true) texts) ∧
  exclusion_raw course
  = last (filter
            (λ t, contains (py "Credit will only be granted for one of") t
                  || contains (py "Credit will be granted for only one of") t = true)
            texts).
Proof.
  intros texts course. unfold course, extract_course_block.
  cbn [description prerequisite_raw corequisite_raw exclusion_raw].
  destruct (course_walk_spec
              (filter (λ n, is_tag n = true) (next_siblings heading))
              {| description_parts := []; prereq_raw := None;
                 coreq_raw := None; excl_raw := None |}) as (Hd & Hp & Hc & He).
  rewrite Hd, Hp, Hc, He. fold (block_texts (next_siblings heading)). fold texts.
  cbn [description_parts prereq_raw coreq_raw excl_raw app].
  assert (∀ (A : Type) (o : option A), or_else o None = o) as Hnone
    by (by intros A [x|]).
  rewrite !Hnone. split; [done|]. split; [done|]. split; [done|].
  apply option_fmap_id.
Qed.

Lemma before_h3_app_h3 pre t post :
  name_in [h3] t = true → before_h3 (pre ++ t :: post) = before_h3 pre.
Proof.
  intros Ht. induction pre as [|n pre IH]; simpl; [by rewrite Ht|].
  destruct (name_in [h3] n); [done|]. by rewrite IH.
Qed.

Lemma course_walk_app_h3 pre t post st :
  name_in [h3] t = true → course_walk (pre ++ t :: post) st = course_walk pre st.
Proof.
  intros Ht. revert st. induction pre as [|n pre IH]; intros st; simpl; [by rewrite Ht|].
  destruct (name_in [h3] n); [done|]. apply IH.
Qed.

Lemma course_walk_app_other pre t post st :
  name_in [h3] t = false → name_in [py "p"; py "div"; py "li"] t = false →
  course_walk (pre ++ t :: post) st = course_walk (pre ++ post) st.
Proof.
  intros Hh Hp. revert st. induction pre as [|n pre IH]; intros st; simpl.
  - rewrite Hh. unfold course_body. by rewrite Hp.
  - destruct (name_in [h3] n); [done|]. apply IH.
Qed.

(** X21. The block of a course ends at the next [h3]: what stands after it
    is not read.  The walk goes from tag to tag, so a text node among the
    siblings, empty or not, is not seen at all and does not end the walk;
    a tag other than [p], [div], [li] and [h3] is stepped over with all
    that it contains. *)
Theorem course_block_boundary (h : Node) (pre post : list Node) (t : Node) :
  (name_in [h3] t = true →
   extract_course_block (Loc h (pre ++ t :: post)) = extract_course_block (Loc h pre)) ∧
  (is_tag t = false →
   extract_course_block (Loc h (pre ++ t :: post))
   = extract_course_block (Loc h (pre ++ post))) ∧
  (name_in [h3; py "p"; py "div"; py "li"] t = false →
   extract_course_block (Loc h (pre ++ t :: post))
   = extract_course_block (Loc h (pre ++ post))).
Proof.
  assert (is_tag t = false →
          extract_course_block (Loc h (pre ++ t :: post))
          = extract_course_block (Loc h (pre ++ post))) as Htext.
  { intros Ht. unfold extract_course_block. cbn [node next_siblings].
    rewrite !filter_app, filter_cons. destruct (decide (is_tag t = true)) as [E|_]; [|done].
    by rewrite Ht in E. }
  split; [|split; [done|]].
  - intros Ht. unfold extract_course_block. cbn [node next_siblings].
    rewrite filter_app, filter_cons.
    destruct (decide (is_tag t = true)) as [_|E].
    + by rewrite course_walk_app_h3.
    + destruct t; [done|]. by destruct E.
  - intros Hname. destruct (is_tag t) eqn:Htag; [|by apply Htext].
    unfold extract_course_block. cbn [node next_siblings].
    rewrite !filter_app, filter_cons.
    destruct (decide (is_tag t = true)) as [_|E]; [|done].
    destruct t as [s|name cs]; [done|]. simpl in Hname.
    apply bool_decide_eq_false in Hname.
    rewrite course_walk_app_other; [done| |]; simpl; apply bool_decide_eq_false;
      intros Hin; apply Hname; revert Hin;
      rewrite !elem_of_cons, !elem_of_nil; tauto.
Qed.

(** X21 at a course followed by the heading of the next one, and at a
    course with an empty text node before its paragraph. *)
Lemma course_block_boundary_witness :
  description (extract_course_block
                 (Loc (element "h3" "CPSC 110 (4) Computation")
                      ([element "p" "Design."] ++ element "h3" "CPSC 121 (4) Models"
                         :: [element "p" "Logic."])))
  = py "Design." ∧
  description (extract_course_block
                 (Loc (element "h3" "CPSC 110 (4) Computation")
                      ([] ++ NavigableString [] :: [element "p" "Design."])))
  = py "Design.".
Proof.
  destruct (course_block_boundary (element "h3" "CPSC 110 (4) Computation")
              [element "p" "Design."] [element "p" "Logic."]
              (element "h3" "CPSC 121 (4) Models")) as (Hstop & _ & _).
  destruct (course_block_boundary (element "h3" "CPSC 110 (4) Computation")
              [] [element "p" "Design."] (NavigableString [])) as (_ & Htext & _).
  rewrite Hstop, Htext by reflexivity. split; reflexivity.
Defined.

Lemma after_first_spec sep pre post :
  (∀ pre' post', pre ++ sep ++ post = pre' ++ sep ++ post' → length pre ≤ length pre') →
  after_first sep (pre ++ sep ++ post) = post.
Proof.
  induction pre as [|c pre IH]; intros Hmin.
  - cbn [app]. destruct sep as [|a sep].
    + by destruct post.
    + cbn [app after_first].
      assert (startswith (a :: sep) (a :: sep ++ post) = true) as ->.
      { apply startswith_spec. by exists post. }
      change (a :: sep ++ post) with ((a :: sep) ++ post). by rewrite drop_app_length.
  - cbn [app]. destruct (startswith sep (c :: pre ++ sep ++ post)) eqn:Hs.
    + apply startswith_spec in Hs as [post' Hs].
      specialize (Hmin [] post' Hs). simpl in Hmin. lia.
    + destruct sep as [|a sep]; [done|].
      change (after_first (a :: sep) (c :: pre ++ (a :: sep) ++ post))
        with (if startswith (a :: sep) (c :: pre ++ (a :: sep) ++ post)
              then drop (length (a :: sep)) (c :: pre ++ (a :: sep) ++ post)
              else after_first (a :: sep) (pre ++ (a :: sep) ++ post)).
      rewrite Hs. apply IH. intros pre' post' Heq.
      assert (length (c :: pre) ≤ length (c :: pre')) as Hlen
        by (apply (Hmin (c :: pre') post'); simpl; simpl in Heq; congruence).
      simpl in Hlen. lia.
Qed.

(** X22. The prerequisite of a course is cut at the first occurrence of the
    marker: when the last paragraph of the block that holds [Prerequisite:]
    reads [pre ++ "Prerequisite:" ++ post] with the marker occurring no
    earlier, the prerequisite is [post] trimmed, a second marker inside
    [post] included; the corequisite likewise. *)
Theorem prerequisite_after_first_marker (heading : Located) (marker pre post : str) :
  let texts := block_texts (next_siblings heading) in
  (∀ pre' post', pre ++ marker ++ post = pre' ++ marker ++ post' →
                 length pre ≤ length pre') →
  (marker = py "Prerequisite:" →
   last (filter (λ t, contains marker t = true) texts) = Some (pre ++ marker ++ post) →
   prerequisite_raw (extract_course_block heading) = Some (strip post)) ∧
  (marker = py "Corequisite:" →
   last (filter (λ t, contains marker t = true) texts) = Some (pre ++ marker ++ post) →
   corequisite_raw (extract_course_block heading) = Some (strip post)).
Proof.
  intros texts Hmin.
  destruct (course_block_spec heading) as (_ & Hp & Hc & _).
  split; intros -> Hlast.
  - rewrite Hp. fold texts. rewrite Hlast.
    change (Some (strip (after_first (py "Prerequisite:")
                           (pre ++ py "Prerequisite:" ++ post))) = Some (strip post)).
    by rewrite after_first_spec.
  - rewrite Hc. fold texts. rewrite Hlast.
    change (Some (strip (after_first (py "Corequisite:")
                           (pre ++ py "Corequisite:" ++ post))) = Some (strip post)).
    by rewrite after_first_spec.
Qed.

(** X22 at a paragraph that names the marker twice. *)
Lemma prerequisite_after_first_marker_witness :
  prerequisite_raw
    (extract_course_block
       (Loc (element "h3" "CPSC 210 (4) Software Construction")
            [element "p" "Sets. Prerequisite: CPSC 110 or Prerequisite: none."]))
  = Some (py "CPSC 110 or Prerequisite: none.").
Proof.
  destruct (prerequisite_after_first_marker
              (Loc (element "h3" "CPSC 210 (4) Software Construction")
                   [element "p" "Sets. Prerequisite: CPSC 110 or Prerequisite: none."])
              (py "Prerequisite:") (py "Sets. ") (py " CPSC 110 or Prerequisite: none."))
    as [Hpre _].
  - intros pre' post' Heq.
    do 6 (destruct pre' as [|? pre']; [discriminate Heq|]).
    simpl. lia.
  - rewrite Hpre; reflexivity.
Defined.
